(** * cloud-chain: the ContractTest driver of [web3py/contract_functions.py]

    A shallow embedding of the Python class [ContractTest]: its nonce manager
    ([get_nonce], [get_nonce_lock], [update_nonces]), the submission helper
    [sign_send_transaction] and the scripted scenarios.  The blockchain node,
    the web3 client library and the repository's [utility]/[settings] modules
    are outside the file that is verified; every call into them is an
    external [call], answered by an arbitrary environment ([node]) that may
    return a value or raise.  The methods are coroutine functions: [M]
    runs them as a caller that awaits them one at a time does, and the
    nonce manager is also run as several tasks of one event loop
    ([run_until_complete]). *)

From stdpp Require Import gmap strings list.
From Stdlib Require Import ZArith Lia.

Set Default Proof Using "Type".

(** ** Data *)

Abbreviation Address := string.

(** Python values that end up in argument lists and transaction dicts. *)
Inductive value : Type :=
| VInt (z : Z)
| VStr (s : string)
| VBytes (b : string).

Global Instance value_eq_dec : EqDecision value.
Proof. solve_decision. Defined.

(** A transaction dict, as passed to and returned by [buildTransaction]. *)
Abbreviation dict := (gmap string value).

Record SignedTransaction := { rawTransaction : string }.

Record TxReceipt := { status : Z; transactionHash : string }.

Record Contract := { address : Address; abi : string }.

(** The compiled artifacts named in [settings]; only their identity matters. *)
Inductive artifact := COMPILED_FACTORY_PATH | COMPILED_ORACLE_PATH | COMPILED_CLOUD_SLA_PATH.

(** Exception classes, as [type(e)] gives them.  [Subclass name base] is a
    class derived from [base] that prints as [name]: [binascii.Error] and
    [json.JSONDecodeError] derive from [ValueError].  [OtherException name]
    is a class outside the hierarchies of the classes named here, as
    [TypeError] or [RuntimeError]. *)
Inductive exn_class :=
| ValueError
| TimeExhausted
| IndexError
| OtherException (name : string)
| Subclass (name : string) (base : exn_class).

Global Instance exn_class_eq_dec : EqDecision exn_class.
Proof. solve_decision. Defined.

(** An exception object: [class_of e] is [type(e)], [message e] is [str(e)]. *)
Record exn := Exn { class_of : exn_class; message : string }.

(** The name of a class as the [repr] of the class shows it, between
    [<class '] and ['>]: qualified by the module, except for builtins. *)
Definition class_name (c : exn_class) : string :=
  match c with
  | ValueError => "ValueError"
  | TimeExhausted => "web3.exceptions.TimeExhausted"
  | IndexError => "IndexError"
  | OtherException name => name
  | Subclass name _ => name
  end.

(** [issubclass c d]: [d] is [c] itself or a class [c] derives from. *)
Fixpoint issubclass (c d : exn_class) : bool :=
  bool_decide (c = d)
  || match c with
     | Subclass _ base => issubclass base d
     | _ => false
     end.

(** [isinstance e classes] for the tuple of classes of an [except] clause:
    an exception of a subclass is an instance too. *)
Definition isinstance (e : exn) (classes : list exn_class) : bool :=
  existsb (issubclass (class_of e)) classes.
Global Arguments isinstance : simpl never.

Definition result (X : Type) : Type := exn + X.

(** The two web3 clients of the object: [self.w3] and [self.w3_async]. *)
Inductive client := w3 | w3_async.

Inductive provider := HTTPProvider | AsyncHTTPProvider | WebsocketProvider.

(** Calls that leave the verified file, indexed by the type of their answer. *)
Inductive call : Type → Type :=
| get_addresses (blockchain : string) : call (Address * Address)
| get_settings (blockchain : string) : call (list Address * list string)
| get_transaction_count (c : client) (account : Address) : call Z
| sign_transaction (tx : dict) (private_key : string) : call SignedTransaction
| send_raw_transaction (raw : string) : call string
| wait_for_transaction_receipt (tx_hash : string) : call TxReceipt
| get_contract (addr : Address) (path : artifact) : call Contract
| solidityKeccak (abi_types : list string) (values : list value) : call string
| buildTransaction (c : Contract) (fn : string) (args : list value) (transaction : dict) : call dict
| call_function (c : Contract) (fn : string) (args : list value) : call Address.

(** One entry of the log: a call and the answer it got. *)
Inductive event : Type :=
| Event {X : Type} (c : call X) (r : result X).

Inductive outcome (A : Type) : Type :=
| Returned (a : A)
| Raised (e : exn)
| Blocked.
Arguments Returned {A} a.
Arguments Raised {A} e.
Arguments Blocked {A}.

(** The fields of a [ContractTest] object.  [w3_provider] is the provider
    of [self.w3] ([self.w3_async] always has the [AsyncHTTPProvider]);
    [lock] is [true] while the [threading.Lock] is held. *)
Record ContractTest := {
  factory_address : Address;
  oracle_address : Address;
  accounts : list Address;
  private_keys : list string;
  w3_provider : provider;
  lock : bool;
  nonces : list Z
}.

Definition blank : ContractTest :=
  {| factory_address := ""; oracle_address := ""; accounts := []; private_keys := [];
     w3_provider := WebsocketProvider; lock := false; nonces := [] |}.

Definition set_addresses (fa oa : Address) (s : ContractTest) : ContractTest :=
  {| factory_address := fa; oracle_address := oa; accounts := accounts s;
     private_keys := private_keys s; w3_provider := w3_provider s;
     lock := lock s; nonces := nonces s |}.

Definition set_settings (acc : list Address) (pks : list string) (s : ContractTest) : ContractTest :=
  {| factory_address := factory_address s; oracle_address := oracle_address s; accounts := acc;
     private_keys := pks; w3_provider := w3_provider s;
     lock := lock s; nonces := nonces s |}.

Definition set_w3 (p : provider) (s : ContractTest) : ContractTest :=
  {| factory_address := factory_address s; oracle_address := oracle_address s;
     accounts := accounts s; private_keys := private_keys s; w3_provider := p;
     lock := lock s; nonces := nonces s |}.

Definition set_lock (b : bool) (s : ContractTest) : ContractTest :=
  {| factory_address := factory_address s; oracle_address := oracle_address s;
     accounts := accounts s; private_keys := private_keys s; w3_provider := w3_provider s;
     lock := b; nonces := nonces s |}.

Definition set_nonces (ns : list Z) (s : ContractTest) : ContractTest :=
  {| factory_address := factory_address s; oracle_address := oracle_address s;
     accounts := accounts s; private_keys := private_keys s; w3_provider := w3_provider s;
     lock := lock s; nonces := ns |}.

(** ** The machine: object, environment, log, output and elapsed time *)

Record machine (World : Type) := Machine {
  self : ContractTest;
  world : World;
  trace : list event;
  stdout : list string;
  clock : N          (* elapsed milliseconds *)
}.
Arguments Machine {World}.
Arguments self {World}.
Arguments world {World}.
Arguments trace {World}.
Arguments stdout {World}.
Arguments clock {World}.

(** Python's [l[i]] for an [int] index: negative indices count from the end. *)
Definition py_index {A} (l : list A) (i : Z) : option nat :=
  let n := Z.of_nat (length l) in
  if bool_decide (0 ≤ i < n)%Z then Some (Z.to_nat i)
  else if bool_decide (- n ≤ i < 0)%Z then Some (Z.to_nat (n + i))
  else None.

(** The [IndexError] of reading [l[i]] outside the list, and the one of
    assigning to [l[i]] there. *)
Definition index_error : exn := Exn IndexError "list index out of range".

Definition assignment_index_error : exn :=
  Exn IndexError "list assignment index out of range".

(** [Web3.toWei(0.001, 'ether')]: a float is converted through its decimal
    string, so the result is exactly 10^15 wei. *)
Definition toWei_0_001_ether : Z := 1000000000000000.

(** Modelled from the spec: [utility.check_statuses] is not among the
    sources; the spec says scenario results "fold a list of receipt-status
    booleans with logical AND".  A status is true when it is not zero. *)
Definition check_statuses (statuses : list Z) : bool :=
  forallb (λ s, negb (s =? 0)%Z) statuses.

Section Program.
Context {World : Type}.

(** The environment: the node, the client library and the missing modules. *)
Variable node : ∀ X, call X → World → result X * World.
(** [settings.DEBUG]. *)
Variable DEBUG : bool.

Definition M (A : Type) : Type := machine World → outcome A * machine World.

Definition ret {A} (a : A) : M A := λ m, (Returned a, m).

Definition raise {A} (e : exn) : M A := λ m, (Raised e, m).

Definition bind {A B} (p : M A) (k : A → M B) : M B :=
  λ m, match p m with
       | (Returned a, m') => k a m'
       | (Raised e, m') => (Raised e, m')
       | (Blocked, m') => (Blocked, m')
       end.

Global Instance M_ret : MRet M := @ret.
Global Instance M_bind : MBind M := λ A B k p, bind p k.

(** An external call: the environment answers, the log records the answer,
    an exception answer is raised at the call site. *)
Definition ext {X} (c : call X) : M X :=
  λ m, let '(r, w') := node X c (world m) in
       let m' := Machine (self m) w' (trace m ++ [Event c r]) (stdout m) (clock m) in
       match r with
       | inl e => (Raised e, m')
       | inr x => (Returned x, m')
       end.

Definition gets {A} (f : ContractTest → A) : M A := λ m, (Returned (f (self m)), m).

Definition modify (f : ContractTest → ContractTest) : M unit :=
  λ m, (Returned tt, Machine (f (self m)) (world m) (trace m) (stdout m) (clock m)).

Definition print (s : string) : M unit :=
  λ m, (Returned tt, Machine (self m) (world m) (trace m) (stdout m ++ [s]) (clock m)).

(** [await asyncio.sleep(ms/1000)] in a coroutine that is awaited on its own:
    the event loop has no other task to run meanwhile, and only time passes.
    What the same line does with other tasks on the loop is the subject of
    [coroutine] and [run_until_complete] below. *)
Definition sleep (ms : N) : M unit :=
  λ m, (Returned tt, Machine (self m) (world m) (trace m) (stdout m) (clock m + ms)%N).

(** [l[i]] *)
Definition getitem {A} (l : list A) (i : Z) : M A :=
  match py_index l i with
  | Some n => match l !! n with Some x => ret x | None => raise index_error end
  | None => raise index_error
  end.

(** [self.nonces[i] = v] *)
Definition nonces_setitem (i : Z) (v : Z) : M unit :=
  ns ← gets nonces;
  match py_index ns i with
  | Some n => modify (set_nonces (<[n := v]> ns))
  | None => raise assignment_index_error
  end.

(** [self.lock.acquire()]: a held lock blocks the caller (and with it the
    only thread of the event loop). *)
Definition lock_acquire : M unit :=
  λ m, if lock (self m) then (Blocked, m) else modify (set_lock true) m.

(** [self.lock.release()] *)
Definition lock_release : M unit :=
  held ← gets lock;
  if (held : bool) then modify (set_lock false)
  else raise (Exn (OtherException "RuntimeError") "release unlocked lock").

(** [try: body / except classes as e: handler / else: orelse] *)
Definition try_except_else {A B} (body : M B) (classes : list exn_class)
    (handler : exn → M A) (orelse : B → M A) : M A :=
  λ m, match body m with
       | (Returned b, m') => orelse b m'
       | (Raised e, m') => if isinstance e classes then handler e m' else (Raised e, m')
       | (Blocked, m') => (Blocked, m')
       end.

Definition when (b : bool) (p : M unit) : M unit := if b then p else ret tt.

(** [for i in range(n): body(i)] *)
Fixpoint for_in {A} (l : list A) (body : A → M unit) : M unit :=
  match l with
  | [] => ret tt
  | i :: l' => body i;; for_in l' body
  end.

Definition range (n : nat) : list Z := Z.of_nat <$> seq 0 n.

(** ** The class *)

Definition __init__ (blockchain : string) : M unit :=
  addrs ← ext (get_addresses blockchain);
  modify (set_addresses addrs.1 addrs.2);;
  settings ← ext (get_settings blockchain);
  modify (set_settings settings.1 settings.2);;
  modify (set_w3 (if String.eqb blockchain "polygon" then HTTPProvider else WebsocketProvider));;
  modify (set_lock false);;
  modify (set_nonces []);;
  for_in (range 3) (λ idx,
    acc ← gets accounts;
    a ← getitem acc idx;
    n ← ext (get_transaction_count w3 a);
    ns ← gets nonces;
    modify (set_nonces (ns ++ [n]))).

Definition get_nonce (idx : Z) : M Z :=
  acc ← gets accounts;
  a ← getitem acc idx;
  nonce ← ext (get_transaction_count w3_async a);
  ret nonce.

Definition get_nonce_lock (idx : Z) : M Z :=
  lock_acquire;;
  sleep 100;;
  ns ← gets nonces;
  tmp ← getitem ns idx;
  ns ← gets nonces;
  v ← getitem ns idx;
  nonces_setitem idx (v + 1);;
  lock_release;;
  ret tmp.

(** The same method with the [asyncio.sleep] line deleted. *)
Definition get_nonce_lock_without_delay (idx : Z) : M Z :=
  lock_acquire;;
  ns ← gets nonces;
  tmp ← getitem ns idx;
  ns ← gets nonces;
  v ← getitem ns idx;
  nonces_setitem idx (v + 1);;
  lock_release;;
  ret tmp.

Definition update_nonces : M unit :=
  lock_acquire;;
  for_in (range 3) (λ i,
    acc ← gets accounts;
    a ← getitem acc i;
    n ← ext (get_transaction_count w3_async a);
    nonces_setitem i n);;
  lock_release.

Definition sign_send_transaction (tx : dict) (pk : string) : M Z :=
  try_except_else
    (signed_tx ← ext (sign_transaction tx pk);
     tx_hash ← ext (send_raw_transaction (rawTransaction signed_tx));
     ext (wait_for_transaction_receipt tx_hash))
    [ValueError; TimeExhausted]
    (λ e,
      when DEBUG (print ("<class '" +:+ class_name (class_of e) +:+ "'> [sign_send]: " +:+ message e));;
      ret 0%Z)
    (λ tx_receipt, ret (status tx_receipt)).

(** A dict literal [{k1: v1, ...}] (the keys are distinct where it is used). *)
Definition dict_of (items : list (string * value)) : dict := list_to_map items.
Global Arguments dict_of : simpl never.

Definition cloud_sla_creation_activation : M (Address * bool) :=
  let statuses : list Z := [] in
  (* Parameters *)
  let price := toWei_0_001_ether in
  let test_validity_duration := (60 ^ 2)%Z in
  (* Contracts *)
  fa ← gets factory_address;
  contract_factory ← ext (get_contract fa COMPILED_FACTORY_PATH);
  oa ← gets oracle_address;
  contract_oracle ← ext (get_contract oa COMPILED_ORACLE_PATH);
  (* Transactions *)
  acc ← gets accounts;
  user ← getitem acc 1;
  acc ← gets accounts;
  sender ← getitem acc 0;
  nonce ← get_nonce 0;
  tx_create_child ← ext (buildTransaction contract_factory "createChild"
    [VStr (address contract_oracle); VStr user; VInt price; VInt test_validity_duration;
     VInt 1; VInt 1]
    (dict_of [("gasPrice", VInt 0); ("from", VStr sender); ("nonce", VInt nonce)]));
  pks ← gets private_keys;
  pk ← getitem pks 0;
  st ← sign_send_transaction tx_create_child pk;
  let statuses := statuses ++ [st] in
  acc ← gets accounts;
  user ← getitem acc 1;
  tx_sm_address ← ext (call_function contract_factory "getSmartContractAddress" [VStr user]);
  (* Contract *)
  contract_cloud_sla ← ext (get_contract tx_sm_address COMPILED_CLOUD_SLA_PATH);
  (* Transaction *)
  acc ← gets accounts;
  sender ← getitem acc 1;
  nonce ← get_nonce 1;
  tx_deposit ← ext (buildTransaction contract_cloud_sla "Deposit" []
    (dict_of [("gasPrice", VInt 0); ("from", VStr sender); ("nonce", VInt nonce);
              ("value", VInt price)]));
  pks ← gets private_keys;
  pk ← getitem pks 1;
  st ← sign_send_transaction tx_deposit pk;
  let statuses := statuses ++ [st] in
  let all_statuses := check_statuses statuses in
  when (all_statuses && DEBUG)
    (print "CloudSLA creation and activation: OK";;
     print (String (Ascii.ascii_of_nat 9) "address: " +:+ tx_sm_address));;
  mret (tx_sm_address, all_statuses).

Definition sequence_upload (cloud_address : Address) (filepath hash_digest : string) : M bool :=
  let statuses : list Z := [] in
  (* Contract *)
  contract_cloud_sla ← ext (get_contract cloud_address COMPILED_CLOUD_SLA_PATH);
  (* Transactions *)
  challenge ← ext (solidityKeccak ["bytes32"] [VStr hash_digest]);
  acc ← gets accounts;
  sender ← getitem acc 1;
  nonce ← get_nonce 1;
  tx_upload_request ← ext (buildTransaction contract_cloud_sla "UploadRequest"
    [VStr filepath; VBytes challenge]
    (dict_of [("gasPrice", VInt 0); ("from", VStr sender); ("nonce", VInt nonce)]));
  pks ← gets private_keys;
  pk ← getitem pks 1;
  st ← sign_send_transaction tx_upload_request pk;
  let statuses := statuses ++ [st] in
  acc ← gets accounts;
  sender ← getitem acc 0;
  nonce ← get_nonce 0;
  tx_upload_request_ack ← ext (buildTransaction contract_cloud_sla "UploadRequestAck"
    [VStr filepath]
    (dict_of [("gasPrice", VInt 0); ("from", VStr sender); ("nonce", VInt nonce)]));
  pks ← gets private_keys;
  pk ← getitem pks 0;
  st ← sign_send_transaction tx_upload_request_ack pk;
  let statuses := statuses ++ [st] in
  acc ← gets accounts;
  sender ← getitem acc 0;
  nonce ← get_nonce 0;
  tx_upload_transfer_ack ← ext (buildTransaction contract_cloud_sla "UploadTransferAck"
    [VStr filepath; VStr hash_digest]
    (dict_of [("gasPrice", VInt 0); ("from", VStr sender); ("nonce", VInt nonce)]));
  pks ← gets private_keys;
  pk ← getitem pks 0;
  st ← sign_send_transaction tx_upload_transfer_ack pk;
  let statuses := statuses ++ [st] in
  let all_statuses := check_statuses statuses in
  mret all_statuses.

Definition sequence_read (cloud_address : Address) (filepath url : string) : M bool :=
  let statuses : list Z := [] in
  (* Contract *)
  contract_cloud_sla ← ext (get_contract cloud_address COMPILED_CLOUD_SLA_PATH);
  (* Transactions *)
  acc ← gets accounts;
  sender ← getitem acc 1;
  nonce ← get_nonce 1;
  tx_read_request ← ext (buildTransaction contract_cloud_sla "ReadRequest"
    [VStr filepath]
    (dict_of [("gasPrice", VInt 0); ("from", VStr sender); ("nonce", VInt nonce)]));
  pks ← gets private_keys;
  pk ← getitem pks 1;
  st ← sign_send_transaction tx_read_request pk;
  let statuses := statuses ++ [st] in
  acc ← gets accounts;
  sender ← getitem acc 0;
  nonce ← get_nonce 0;
  tx_read_request_ack ← ext (buildTransaction contract_cloud_sla "ReadRequestAck"
    [VStr filepath; VStr url]
    (dict_of [("gasPrice", VInt 0); ("from", VStr sender); ("nonce", VInt nonce)]));
  pks ← gets private_keys;
  pk ← getitem pks 0;
  st ← sign_send_transaction tx_read_request_ack pk;
  let statuses := statuses ++ [st] in
  let all_statuses := check_statuses statuses in
  mret all_statuses.

Definition sequence_file (cloud_address : Address) (filepath url hash_digest : string) : M bool :=
  let statuses : list Z := [] in
  (* Contracts *)
  contract_cloud_sla ← ext (get_contract cloud_address COMPILED_CLOUD_SLA_PATH);
  oa ← gets oracle_address;
  contract_oracle ← ext (get_contract oa COMPILED_ORACLE_PATH);
  (* Transactions *)
  acc ← gets accounts;
  sender ← getitem acc 1;
  nonce ← get_nonce 1;
  tx_file_hash_request ← ext (buildTransaction contract_cloud_sla "FileHashRequest"
    [VStr filepath]
    (dict_of [("gasPrice", VInt 0); ("from", VStr sender); ("nonce", VInt nonce)]));
  pks ← gets private_keys;
  pk ← getitem pks 1;
  st ← sign_send_transaction tx_file_hash_request pk;
  let statuses := statuses ++ [st] in
  acc ← gets accounts;
  sender ← getitem acc 2;
  nonce ← get_nonce 2;
  tx_digit_store ← ext (buildTransaction contract_oracle "DigestStore"
    [VStr url; VStr hash_digest]
    (dict_of [("gasPrice", VInt 0); ("from", VStr sender); ("nonce", VInt nonce)]));
  pks ← gets private_keys;
  pk ← getitem pks 2;
  st ← sign_send_transaction tx_digit_store pk;
  let statuses := statuses ++ [st] in
  acc ← gets accounts;
  sender ← getitem acc 1;
  nonce ← get_nonce 1;
  tx_file_check ← ext (buildTransaction contract_cloud_sla "FileCheck"
    [VStr filepath]
    (dict_of [("gasPrice", VInt 0); ("from", VStr sender); ("nonce", VInt nonce)]));
  pks ← gets private_keys;
  pk ← getitem pks 1;
  st ← sign_send_transaction tx_file_check pk;
  let statuses := statuses ++ [st] in
  let all_statuses := check_statuses statuses in
  mret all_statuses.

Definition upload (cloud_address : Address) : M bool :=
  (* Parameters *)
  let filepath := "test.pdf" in
  let hash_digest := "0x9f86d081884c7d659a2feaa0c55ad015a3bf4f1b2b0b822cd15d6c15b0f00a08" in
  all_statuses ← sequence_upload cloud_address filepath hash_digest;
  when (all_statuses && DEBUG) (print "Upload: OK");;
  mret all_statuses.

Definition read (cloud_address : Address) : M bool :=
  (* Parameters *)
  let filepath := "test.pdf" in
  let url := "www.test.com" in
  all_statuses ← sequence_read cloud_address filepath url;
  when (all_statuses && DEBUG) (print "Read: OK");;
  mret all_statuses.

Definition delete (cloud_address : Address) : M bool :=
  let statuses : list Z := [] in
  (* Parameter *)
  let filepath := "test.pdf" in
  (* Contract *)
  contract_cloud_sla ← ext (get_contract cloud_address COMPILED_CLOUD_SLA_PATH);
  (* Transactions *)
  acc ← gets accounts;
  sender ← getitem acc 1;
  nonce ← get_nonce 1;
  tx_delete_request ← ext (buildTransaction contract_cloud_sla "DeleteRequest"
    [VStr filepath]
    (dict_of [("gasPrice", VInt 0); ("from", VStr sender); ("nonce", VInt nonce)]));
  pks ← gets private_keys;
  pk ← getitem pks 1;
  st ← sign_send_transaction tx_delete_request pk;
  let statuses := statuses ++ [st] in
  acc ← gets accounts;
  sender ← getitem acc 0;
  nonce ← get_nonce 0;
  tx_delete ← ext (buildTransaction contract_cloud_sla "Delete"
    [VStr filepath]
    (dict_of [("gasPrice", VInt 0); ("from", VStr sender); ("nonce", VInt nonce)]));
  pks ← gets private_keys;
  pk ← getitem pks 0;
  st ← sign_send_transaction tx_delete pk;
  let statuses := statuses ++ [st] in
  let all_statuses := check_statuses statuses in
  when (all_statuses && DEBUG) (print "Delete: OK");;
  mret all_statuses.

Definition file_check_undeleted_file (cloud_address : Address) : M bool :=
  (* Parameters *)
  let filepath := "test.pdf" in
  let url := "www.test.com" in
  let hash_digest := "0x9f86d081884c7d659a2feaa0c55ad015a3bf4f1b2b0b822cd15d6c15b0f00a08" in
  all_statuses ← sequence_file cloud_address filepath url hash_digest;
  when (all_statuses && DEBUG) (print "File check for undeleted file: OK");;
  mret all_statuses.

Definition another_file_upload (cloud_address : Address) : M bool :=
  (* Parameters *)
  let filepath := "test2.pdf" in
  let hash_digest := "0x1f86d081884c7d659a2feaa0c55ad015a3bf4f1b2b0b822cd15d6c15b0f00a08" in
  all_statuses ← sequence_upload cloud_address filepath hash_digest;
  when (all_statuses && DEBUG) (print "Another file upload: OK");;
  mret all_statuses.

Definition read_deny_lost_file_check (cloud_address : Address) : M bool :=
  let statuses : list Z := [] in
  (* Parameter *)
  let filepath := "test2.pdf" in
  (* Contract *)
  contract_cloud_sla ← ext (get_contract cloud_address COMPILED_CLOUD_SLA_PATH);
  (* Transactions *)
  acc ← gets accounts;
  sender ← getitem acc 1;
  nonce ← get_nonce 1;
  tx_read_request ← ext (buildTransaction contract_cloud_sla "ReadRequest"
    [VStr filepath]
    (dict_of [("gasPrice", VInt 0); ("from", VStr sender); ("nonce", VInt nonce)]));
  pks ← gets private_keys;
  pk ← getitem pks 1;
  st ← sign_send_transaction tx_read_request pk;
  let statuses := statuses ++ [st] in
  acc ← gets accounts;
  sender ← getitem acc 0;
  nonce ← get_nonce 0;
  tx_read_request_deny ← ext (buildTransaction contract_cloud_sla "ReadRequestDeny"
    [VStr filepath]
    (dict_of [("gasPrice", VInt 0); ("from", VStr sender); ("nonce", VInt nonce)]));
  pks ← gets private_keys;
  pk ← getitem pks 0;
  st ← sign_send_transaction tx_read_request_deny pk;
  let statuses := statuses ++ [st] in
  let all_statuses := check_statuses statuses in
  when (all_statuses && DEBUG) (print "Read Deny with lost file check: OK");;
  mret all_statuses.

Definition another_file_upload_read (cloud_address : Address) : M bool :=
  (* Parameters *)
  let filepath := "test3.pdf" in
  let url := "www.test3.com" in
  let hash_digest := "0x2f86d081884c7d659a2feaa0c55ad015a3bf4f1b2b0b822cd15d6c15b0f00a08" in
  all_statuses_upload ← sequence_upload cloud_address filepath hash_digest;
  all_statuses_read ← sequence_read cloud_address filepath url;
  when (all_statuses_upload && all_statuses_read && DEBUG)
    (print "Another file upload + read: OK");;
  mret (all_statuses_upload && all_statuses_read).

Definition corrupted_file_check (cloud_address : Address) : M bool :=
  (* Parameters *)
  let filepath := "test3.pdf" in
  let url := "www.test3.com" in
  let hash_digest := "0x4f86d081884c7d659a2feaa0c55ad015a3bf4f1b2b0b822cd15d6c15b0f00a08" in
  all_statuses ← sequence_file cloud_address filepath url hash_digest;
  when (all_statuses && DEBUG) (print "File Check for corrupted file: OK");;
  mret all_statuses.

(** ** Tasks of one event loop

    The methods are coroutine functions.  Awaited on its own a coroutine
    runs as [M] has it above, and its [await asyncio.sleep] only lets time
    pass.  With several tasks on one event loop the same [await] is the
    point where the loop leaves the task and runs the others, in the same
    thread; a [threading.Lock] the suspended task holds stays held
    meanwhile, and an [acquire] by another task stops the thread, and with
    it the loop and every task. *)

(** A coroutine whose suspension points are [await asyncio.sleep]: the code
    up to the next one, its delay in milliseconds, and the rest. *)
Inductive coroutine (A : Type) : Type :=
| Finish (p : M A)
| AwaitSleep (p : M ()) (ms : N) (rest : coroutine A).
Global Arguments Finish {A} p.
Global Arguments AwaitSleep {A} p ms rest.

(** [get_nonce_lock] cut at its [await asyncio.sleep(.1)]. *)
Definition get_nonce_lock_coroutine (idx : Z) : coroutine Z :=
  AwaitSleep lock_acquire 100
    (Finish
       (ns ← gets nonces;
        tmp ← getitem ns idx;
        ns ← gets nonces;
        v ← getitem ns idx;
        nonces_setitem idx (v + 1);;
        lock_release;;
        ret tmp)).

(** With the [asyncio.sleep] line deleted the method awaits nothing. *)
Definition get_nonce_lock_without_delay_coroutine (idx : Z) : coroutine Z :=
  Finish (get_nonce_lock_without_delay idx).

(** A coroutine awaited with no other task on the loop. *)
Fixpoint await {A} (c : coroutine A) : M A :=
  match c with
  | Finish p => p
  | AwaitSleep p ms rest => p;; sleep ms;; await rest
  end.

(** The number of stretches of code in a coroutine. *)
Fixpoint stretches {A} (c : coroutine A) : nat :=
  match c with
  | Finish _ => 1
  | AwaitSleep _ _ rest => S (stretches rest)
  end.

(** A task of the loop: the position of its coroutine in the call that
    created the tasks, the time at which it is due, and what is left of it. *)
Record task (A : Type) := Task { slot : nat; due : N; body : coroutine A }.
Global Arguments Task {A} slot due body.
Global Arguments slot {A} t.
Global Arguments due {A} t.
Global Arguments body {A} t.

(** The task the loop runs next: the one due first, and among tasks due at
    the same time the one scheduled first. *)
Fixpoint next_due {A} (q : list (task A)) : option (task A * list (task A)) :=
  match q with
  | [] => None
  | t :: q' =>
      match next_due q' with
      | Some (t', rest) => if (due t' <? due t)%N then Some (t', t :: rest) else Some (t, q')
      | None => Some (t, q')
      end
  end.

(** The loop waits until the next task is due. *)
Definition wait_until (t : N) : M () :=
  λ m, (Returned (), Machine (self m) (world m) (trace m) (stdout m) (N.max (clock m) t)).

(** [loop.time()] *)
Definition loop_time : M N := λ m, (Returned (clock m), m).

(** One stretch of a task: an exception it raises ends the task, not the
    loop; a blocking call in it stops the thread. *)
Definition stretch {A} (p : M A) : M (result A) :=
  λ m, match p m with
       | (Returned a, m') => (Returned (inr a), m')
       | (Raised e, m') => (Returned (inl e), m')
       | (Blocked, m') => (Blocked, m')
       end.

(** The loop: it runs the next task up to its next suspension point, where
    the task is scheduled again after its delay, or to its end, where what
    it returned or raised is recorded.  [fuel] bounds the number of
    stretches run; the number of stretches of the tasks is enough. *)
Fixpoint run_loop {A} (fuel : nat) (q : list (task A)) (finished : list (nat * result A))
    : M (list (nat * result A)) :=
  match fuel with
  | O => ret finished
  | S fuel' =>
      match next_due q with
      | None => ret finished
      | Some (t, q') =>
          wait_until (due t);;
          match body t with
          | Finish p =>
              r ← stretch p;
              run_loop fuel' q' (finished ++ [(slot t, r)])
          | AwaitSleep p ms rest =>
              r ← stretch p;
              match r with
              | inr _ =>
                  now ← loop_time;
                  run_loop fuel' (q' ++ [Task (slot t) (now + ms) rest]) finished
              | inl e => run_loop fuel' q' (finished ++ [(slot t, inl e)])
              end
          end
      end
  end.

(** [loop.run_until_complete(asyncio.wait(tasks))] for tasks created from
    the coroutines [cs], in this order, on a loop with no other task: the
    position of each coroutine in [cs] with what it returned or raised, in
    the order in which the tasks ended. *)
Definition run_until_complete {A} (cs : list (coroutine A)) : M (list (nat * result A)) :=
  run_loop (sum_list (stretches <$> cs)) (imap (λ i c, Task i 0 c) cs) [].

End Program.

(** ** Scenario methods as data *)

Inductive scenario :=
| CloudSlaCreationActivation
| SequenceUpload (cloud_address : Address) (filepath hash_digest : string)
| SequenceRead (cloud_address : Address) (filepath url : string)
| SequenceFile (cloud_address : Address) (filepath url hash_digest : string)
| Upload (cloud_address : Address)
| Read (cloud_address : Address)
| Delete (cloud_address : Address)
| FileCheckUndeletedFile (cloud_address : Address)
| AnotherFileUpload (cloud_address : Address)
| ReadDenyLostFileCheck (cloud_address : Address)
| AnotherFileUploadRead (cloud_address : Address)
| CorruptedFileCheck (cloud_address : Address).

(** The boolean a scenario method returns (the second component of the
    tuple for [cloud_sla_creation_activation]). *)
Definition scenario_result {World} (node : ∀ X, call X → World → result X * World)
    (DEBUG : bool) (sc : scenario) : M bool :=
  match sc with
  | CloudSlaCreationActivation => r ← cloud_sla_creation_activation node DEBUG; mret r.2
  | SequenceUpload a f h => sequence_upload node DEBUG a f h
  | SequenceRead a f u => sequence_read node DEBUG a f u
  | SequenceFile a f u h => sequence_file node DEBUG a f u h
  | Upload a => upload node DEBUG a
  | Read a => read node DEBUG a
  | Delete a => delete node DEBUG a
  | FileCheckUndeletedFile a => file_check_undeleted_file node DEBUG a
  | AnotherFileUpload a => another_file_upload node DEBUG a
  | ReadDenyLostFileCheck a => read_deny_lost_file_check node DEBUG a
  | AnotherFileUploadRead a => another_file_upload_read node DEBUG a
  | CorruptedFileCheck a => corrupted_file_check node DEBUG a
  end.

(** The contract functions a scenario method turns into transactions, in
    source order. *)
Definition steps (sc : scenario) : list string :=
  match sc with
  | CloudSlaCreationActivation => ["createChild"; "Deposit"]
  | SequenceUpload _ _ _ | Upload _ | AnotherFileUpload _ =>
      ["UploadRequest"; "UploadRequestAck"; "UploadTransferAck"]
  | SequenceRead _ _ _ | Read _ => ["ReadRequest"; "ReadRequestAck"]
  | SequenceFile _ _ _ _ | FileCheckUndeletedFile _ | CorruptedFileCheck _ =>
      ["FileHashRequest"; "DigestStore"; "FileCheck"]
  | Delete _ => ["DeleteRequest"; "Delete"]
  | ReadDenyLostFileCheck _ => ["ReadRequest"; "ReadRequestDeny"]
  | AnotherFileUploadRead _ =>
      ["UploadRequest"; "UploadRequestAck"; "UploadTransferAck"; "ReadRequest"; "ReadRequestAck"]
  end.

(** ** Reading the log *)

Record BuildRequest := {
  b_contract : Contract;
  b_fn : string;
  b_args : list value;
  b_transaction : dict
}.

(** The [buildTransaction] requests, whatever they were answered. *)
Definition built_of (ev : event) : option BuildRequest :=
  match ev with
  | Event c _ =>
      match c with
      | buildTransaction ct fn args p => Some (Build_BuildRequest ct fn args p)
      | _ => None
      end
  end.

(** The transactions [buildTransaction] returned. *)
Definition built_tx_of (ev : event) : option dict :=
  match ev with
  | Event c r =>
      match c in call X return result X → option dict with
      | buildTransaction _ _ _ _ => λ r, match r with inr tx => Some tx | inl _ => None end
      | _ => λ _, None
      end r
  end.

(** The answered transaction-count lookups of [self.w3_async]. *)
Definition lookup_of (ev : event) : option (Address * Z) :=
  match ev with
  | Event c r =>
      match c in call X return result X → option (Address * Z) with
      | get_transaction_count w3_async a =>
          λ r, match r with inr n => Some (a, n) | inl _ => None end
      | _ => λ _, None
      end r
  end.

Definition signed_of (ev : event) : option (dict * string) :=
  match ev with
  | Event c _ =>
      match c with
      | sign_transaction tx pk => Some (tx, pk)
      | _ => None
      end
  end.

Definition signed_raw_of (ev : event) : option string :=
  match ev with
  | Event c r =>
      match c in call X return result X → option string with
      | sign_transaction _ _ =>
          λ r, match r with inr s => Some (rawTransaction s) | inl _ => None end
      | _ => λ _, None
      end r
  end.

Definition sent_of (ev : event) : option string :=
  match ev with
  | Event c _ =>
      match c with
      | send_raw_transaction raw => Some raw
      | _ => None
      end
  end.

Definition sent_hash_of (ev : event) : option string :=
  match ev with
  | Event c r =>
      match c in call X return result X → option string with
      | send_raw_transaction _ => λ r, match r with inr h => Some h | inl _ => None end
      | _ => λ _, None
      end r
  end.

Definition waited_of (ev : event) : option string :=
  match ev with
  | Event c _ =>
      match c with
      | wait_for_transaction_receipt h => Some h
      | _ => None
      end
  end.

(** The status of the submission that an event ends: a submission ends
    with a failed signature, a failed send, or the answer to the wait. *)
Definition status_of (ev : event) : option Z :=
  match ev with
  | Event c r =>
      match c in call X return result X → option Z with
      | sign_transaction _ _ => λ r, match r with inl _ => Some 0%Z | inr _ => None end
      | send_raw_transaction _ => λ r, match r with inl _ => Some 0%Z | inr _ => None end
      | wait_for_transaction_receipt _ =>
          λ r, match r with inl _ => Some 0%Z | inr rc => Some (status rc) end
      | _ => λ _, None
      end r
  end.

(** The read-only contract calls ([.call()]) with their answers. *)
Definition called_of (ev : event) : option (Contract * string * list value * result Address) :=
  match ev with
  | Event c r =>
      match c in call X return result X → option (Contract * string * list value * result Address) with
      | call_function ct fn args => λ r, Some (ct, fn, args, r)
      | _ => λ _, None
      end r
  end.

(** The answered transaction-count lookups of [self.w3]. *)
Definition sync_lookup_of (ev : event) : option (Address * Z) :=
  match ev with
  | Event c r =>
      match c in call X return result X → option (Address * Z) with
      | get_transaction_count w3 a =>
          λ r, match r with inr n => Some (a, n) | inl _ => None end
      | _ => λ _, None
      end r
  end.

(** The exception a call was answered with. *)
Definition raised_of (ev : event) : option exn :=
  match ev with
  | Event _ (inl e) => Some e
  | Event _ (inr _) => None
  end.

(** The receipt a wait was answered with. *)
Definition receipt_of (ev : event) : option TxReceipt :=
  match ev with
  | Event c r =>
      match c in call X return result X → option TxReceipt with
      | wait_for_transaction_receipt _ =>
          λ r, match r with inr rc => Some rc | inl _ => None end
      | _ => λ _, None
      end r
  end.

Definition built (t : list event) : list BuildRequest := omap built_of t.
Definition built_txs (t : list event) : list dict := omap built_tx_of t.
Definition lookups (t : list event) : list (Address * Z) := omap lookup_of t.
Definition signed (t : list event) : list (dict * string) := omap signed_of t.
Definition signed_raws (t : list event) : list string := omap signed_raw_of t.
Definition sent (t : list event) : list string := omap sent_of t.
Definition sent_hashes (t : list event) : list string := omap sent_hash_of t.
Definition waited (t : list event) : list string := omap waited_of t.
Definition statuses (t : list event) : list Z := omap status_of t.
Definition sync_lookups (t : list event) : list (Address * Z) := omap sync_lookup_of t.
Definition raised (t : list event) : list exn := omap raised_of t.
Definition receipts (t : list event) : list TxReceipt := omap receipt_of t.
Definition called (t : list event) : list (Contract * string * list value * result Address) :=
  omap called_of t.

(** The events a run added to the log. *)
Definition new_events {World} (m m' : machine World) : list event :=
  drop (length (trace m)) (trace m').

(** The sender and nonce fields of a transaction dict. *)
Definition from_nonce (p : dict) : option (Address * Z) :=
  match p !! "from", p !! "nonce" with
  | Some (VStr a), Some (VInt n) => Some (a, n)
  | _, _ => None
  end.

(** What a built transaction must look like for an object with the given
    accounts: gas price zero, sender one of the three accounts, and a value
    field exactly on [Deposit], holding the price, which is the price
    [createChild] is given as its third argument. *)
Definition build_ok (acc : list Address) (b : BuildRequest) : Prop :=
  b_transaction b !! "gasPrice" = Some (VInt 0)
  ∧ (∃ a, b_transaction b !! "from" = Some (VStr a) ∧ a ∈ take 3 acc)
  ∧ (∀ v, b_transaction b !! "value" = Some v ↔ b_fn b = "Deposit" ∧ v = VInt toWei_0_001_ether)
  ∧ (b_fn b = "createChild" → b_args b !! 2%nat = Some (VInt toWei_0_001_ether)).

(** An environment under which no call raises past a scenario: only the
    three submission calls may raise, and only what [sign_send_transaction]
    catches. *)
Definition is_submission {X} (c : call X) : bool :=
  match c with
  | sign_transaction _ _ | send_raw_transaction _ | wait_for_transaction_receipt _ => true
  | _ => false
  end.

Definition is_submission_event (ev : event) : bool :=
  match ev with
  | Event c _ => is_submission c
  end.

Definition cooperative {World} (node : ∀ X, call X → World → result X * World) : Prop :=
  ∀ X (c : call X) w,
    match (node X c w).1 with
    | inr _ => True
    | inl e => is_submission c = true ∧ isinstance e [ValueError; TimeExhausted] = true
    end.

(** An object as [__init__] leaves it, given settings with a private key
    for each of the three accounts. *)
Definition well_formed (s : ContractTest) : Prop :=
  (3 ≤ length (accounts s))%nat ∧ (3 ≤ length (private_keys s))%nat
  ∧ length (nonces s) = 3%nat ∧ lock s = false.

(** ** A simulated node, for running the methods on concrete inputs *)

Record faults := {
  sign_fault : option exn;
  send_fault : option exn;
  wait_fault : option exn;
  receipt_status : Z
}.

Definition answer {X} (fault : option exn) (x : X) : result X :=
  match fault with
  | Some e => inl e
  | None => inr x
  end.

(** The world of the simulation is the number of transactions sent so far,
    which the node serves as every account's transaction count. *)
Definition sim_node (f : faults) : ∀ X, call X → Z → result X * Z :=
  λ X c w,
    match c in call X return result X * Z with
    | get_addresses _ => (inr ("0xFAC7", "0x04AC"), w)
    | get_settings _ => (inr (["0xA0"; "0xA1"; "0xA2"], ["key0"; "key1"; "key2"]), w)
    | get_transaction_count _ _ => (inr w, w)
    | sign_transaction _ _ => (answer (sign_fault f) {| rawTransaction := "raw" |}, w)
    | send_raw_transaction _ =>
        (answer (send_fault f) "hash",
         match send_fault f with Some _ => w | None => (w + 1)%Z end)
    | wait_for_transaction_receipt h =>
        (answer (wait_fault f) {| status := receipt_status f; transactionHash := h |}, w)
    | get_contract a _ => (inr {| address := a; abi := "" |}, w)
    | solidityKeccak _ _ => (inr "digest", w)
    | buildTransaction _ _ _ p => (inr p, w)
    | call_function _ _ _ => (inr "0xC41D", w)
    end.

Definition healthy : faults :=
  {| sign_fault := None; send_fault := None; wait_fault := None; receipt_status := 1 |}.

(** Every transaction is mined and reverts. *)
Definition reverting : faults :=
  {| sign_fault := None; send_fault := None; wait_fault := None; receipt_status := 0 |}.

(** The node rejects every raw transaction with a [ValueError]. *)
Definition rejecting : faults :=
  {| sign_fault := None; send_fault := Some (Exn ValueError "rejected by node");
     wait_fault := None; receipt_status := 1 |}.

(** No receipt ever arrives. *)
Definition timing_out : faults :=
  {| sign_fault := None; send_fault := None;
     wait_fault := Some (Exn TimeExhausted "not in the chain after 120 seconds");
     receipt_status := 1 |}.

(** The private key is not a hexadecimal string: the signer raises
    [binascii.Error], a subclass of [ValueError]. *)
Definition bad_key : faults :=
  {| sign_fault := Some (Exn (Subclass "binascii.Error" ValueError) "Non-hexadecimal digit found");
     send_fault := None; wait_fault := None; receipt_status := 1 |}.

(** The signer refuses the dict with a [TypeError], as it does for a
    transaction with missing or unknown fields. *)
Definition type_error : faults :=
  {| sign_fault := Some (Exn (OtherException "TypeError") "Transaction must include these fields");
     send_fault := None; wait_fault := None; receipt_status := 1 |}.

Definition sample_object : ContractTest :=
  {| factory_address := "0xFAC7"; oracle_address := "0x04AC";
     accounts := ["0xA0"; "0xA1"; "0xA2"]; private_keys := ["key0"; "key1"; "key2"];
     w3_provider := WebsocketProvider; lock := false; nonces := [7; 4; 0]%Z |}.

Definition sample_machine : machine Z := Machine sample_object 0%Z [] [] 0%N.

Definition sample_tx : dict :=
  dict_of [("gasPrice", VInt 0); ("from", VStr "0xA1"); ("nonce", VInt 4)].

(** Running several calls one after the other, collecting what they return;
    the run stops at the first call that does not return. *)
Fixpoint run_all {World A} (ps : list (M (World := World) A)) (m : machine World)
    : list A * machine World :=
  match ps with
  | [] => ([], m)
  | p :: ps' =>
      match p m with
      | (Returned a, m') => let '(l, m'') := run_all ps' m' in (a :: l, m'')
      | (_, m') => ([], m')
      end
  end.

(** ** Reasoning about runs *)

(** The entry a Python index denotes. *)
Definition stored {A} (l : list A) (i : Z) : option A := n ← py_index l i; l !! n.

(** [wp p m Q]: the run of [p] from [m] ends in an outcome and a machine
    that satisfy [Q]. *)
Definition wp {World A} (p : M A) (m : machine World)
    (Q : outcome A → machine World → Prop) : Prop :=
  Q (p m).1 (p m).2.

(** A stretch of the log in which every transaction built is well formed and
    carries the sender and nonce of a transaction-count lookup, one lookup
    per transaction, every raw transaction sent is one that was signed, and
    every receipt awaited is for a transaction that was sent. *)
Definition partial_log (acc : list Address) (evs : list event) : Prop :=
  Forall (build_ok acc) (built evs)
  ∧ (from_nonce ∘ b_transaction) <$> built evs = Some <$> lookups evs
  ∧ sent evs = signed_raws evs
  ∧ waited evs = sent_hashes evs.

(** A stretch of the log that holds whole steps: the contract functions
    [fns] were built in this order, every build was answered with a
    transaction, each of these was signed once, and the submissions ended
    with the statuses [sts]. *)
Definition complete_log (acc : list Address) (fns : list string) (sts : list Z)
    (evs : list event) : Prop :=
  partial_log acc evs
  ∧ b_fn <$> built evs = fns
  ∧ (signed evs).*1 = built_txs evs
  ∧ length (built_txs evs) = length fns
  ∧ statuses evs = sts
  ∧ length sts = length fns.

(** What a run of (the rest of) a scenario method satisfies, whatever the
    environment answers.  [s0] and [t0] are the object and the log at the
    start, [fns] the contract functions still to come, [so_far] the
    conjunction of the statuses before, [verdict] the boolean in what is
    returned. *)
Definition run_post {World A} (node : ∀ X, call X → World → result X * World)
    (s0 : ContractTest) (t0 : list event) (fns : list string) (so_far : bool)
    (verdict : A → bool) (o : outcome A) (m' : machine World) : Prop :=
  self m' = s0
  ∧ ∃ evs, trace m' = t0 ++ evs
    ∧ partial_log (accounts s0) evs
    ∧ match o with
      | Returned a =>
          ∃ sts, complete_log (accounts s0) fns sts evs
                 ∧ verdict a = so_far && check_statuses sts
      | Raised e => ¬ (cooperative node ∧ well_formed s0)
      | Blocked => False
      end.

Definition ok {World A} (node : ∀ X, call X → World → result X * World)
    (p : M A) (fns : list string) (so_far : bool) (verdict : A → bool) : Prop :=
  ∀ m : machine World, wp p m (run_post node (self m) (trace m) fns so_far verdict).

(** Calls that are none of the lookups, builds and submissions. *)
Definition quiet {X} (c : call X) : bool :=
  match c with
  | get_contract _ _ | solidityKeccak _ _ | call_function _ _ _ => true
  | _ => false
  end.

(** [p] only prints. *)
Definition prints_only {World} (p : M ()) : Prop :=
  ∀ m : machine World, ∃ out,
    p m = (Returned (), Machine (self m) (world m) (trace m) (stdout m ++ out) (clock m)).

(** The object with other nonces and another lock state. *)
Definition with_nonces_lock {World} (ns : list Z) (lk : bool) (m : machine World)
    : machine World :=
  Machine (set_lock lk (set_nonces ns (self m))) (world m) (trace m) (stdout m) (clock m).

(** [p] neither reads nor writes the nonces and the lock: started with other
    nonces and another lock state it does the same and leaves them as they
    were given. *)
Definition blind {World A} (p : M A) : Prop :=
  ∀ (m : machine World) ns lk,
    p (with_nonces_lock ns lk m) = ((p m).1, with_nonces_lock ns lk (p m).2).

(** ** Further readings of a run *)

(** How a run ended, without what it returned. *)
Inductive ending := Done | Failed (e : exn) | Stuck.

Definition ending_of {A} (o : outcome A) : ending :=
  match o with
  | Returned _ => Done
  | Raised e => Failed e
  | Blocked => Stuck
  end.

(** An object whose settings hold two accounts only. *)
Definition short_object : ContractTest :=
  {| factory_address := "0xFAC7"; oracle_address := "0x04AC";
     accounts := ["0xA0"; "0xA1"]; private_keys := ["key0"; "key1"];
     w3_provider := WebsocketProvider; lock := false; nonces := [7; 4; 0]%Z |}.

Definition short_machine : machine Z := Machine short_object 9%Z [] [] 0%N.

(** How often [i] occurs in [l]. *)
Definition occurrences (i : Z) (l : list Z) : Z :=
  Z.of_nat (length (filter (λ j, j = i) l)).

(** Two machines that differ at most in what has been printed. *)
Definition same_but_stdout {World} (m1 m2 : machine World) : Prop :=
  self m1 = self m2 ∧ world m1 = world m2 ∧ trace m1 = trace m2 ∧ clock m1 = clock m2.

(** [p] and [q] do the same but for what they print. *)
Definition agree {World A} (p q : M A) : Prop :=
  ∀ m1 m2 : machine World, same_but_stdout m1 m2 →
    (p m1).1 = (q m2).1 ∧ same_but_stdout (p m1).2 (q m2).2.

(** [p] prints nothing. *)
Definition mute {World A} (p : M A) : Prop :=
  ∀ m : machine World, stdout (p m).2 = stdout m.

(** The exception of an event that [sign_send_transaction] does not turn
    into a status: any exception answered to a call other than signing,
    sending and waiting, and an exception answered to one of these three
    that is neither a [ValueError] nor a [TimeExhausted]. *)
Definition fatal_of (ev : event) : option exn :=
  match ev with
  | Event c (inl e) =>
      if is_submission c && isinstance e [ValueError; TimeExhausted] then None else Some e
  | Event _ (inr _) => None
  end.

Definition fatals (t : list event) : list exn := omap fatal_of t.

(** A stretch of the log and the way the run that wrote it ended: a run that
    returns met no fatal exception; a run that raises met exactly one, in
    its last event, and raises that one, or met none and raises the
    [IndexError] of a list with too few entries. *)
Definition propagated (evs : list event) (en : ending) : Prop :=
  match en with
  | Done => fatals evs = []
  | Failed e =>
      (∃ evs0 ev, evs = evs0 ++ [ev] ∧ fatals evs0 = [] ∧ fatal_of ev = Some e)
      ∨ (fatals evs = [] ∧ e = index_error)
  | Stuck => False
  end.

Definition propagates {World A} (p : M A) : Prop :=
  ∀ m : machine World, ∃ evs,
    trace (p m).2 = trace m ++ evs ∧ propagated evs (ending_of (p m).1).

(** The account (and private key) index behind each step of a scenario
    method, in source order: 0 is the provider, 1 the user, 2 the oracle. *)
Definition signers (sc : scenario) : list nat :=
  match sc with
  | CloudSlaCreationActivation => [0; 1]
  | SequenceUpload _ _ _ | Upload _ | AnotherFileUpload _ => [1; 0; 0]
  | SequenceRead _ _ _ | Read _ => [1; 0]
  | SequenceFile _ _ _ _ | FileCheckUndeletedFile _ | CorruptedFileCheck _ => [1; 2; 1]
  | Delete _ => [1; 0]
  | ReadDenyLostFileCheck _ => [1; 0]
  | AnotherFileUploadRead _ => [1; 0; 0; 1; 0]
  end%nat.

(** The agreement address a scenario method is called with. *)
Definition cloud_address_of (sc : scenario) : option Address :=
  match sc with
  | CloudSlaCreationActivation => None
  | SequenceUpload a _ _ | SequenceRead a _ _ | SequenceFile a _ _ _
  | Upload a | Read a | Delete a | FileCheckUndeletedFile a | AnotherFileUpload a
  | ReadDenyLostFileCheck a | AnotherFileUploadRead a | CorruptedFileCheck a => Some a
  end.

(** Where the contract of a build request must come from: the address and
    artifact [get_contract] was called with.  [createChild] goes to the
    factory, [DigestStore] to the oracle, [Deposit] to the agreement at an
    address the read-only call [getSmartContractAddress] was answered with,
    everything else to the agreement the method was called with. *)
Definition target_ok (s : ContractTest) (sc : scenario) (evs : list event)
    (fn : string) (addr : Address) (path : artifact) : Prop :=
  if decide (fn = "createChild") then addr = factory_address s ∧ path = COMPILED_FACTORY_PATH
  else if decide (fn = "DigestStore") then addr = oracle_address s ∧ path = COMPILED_ORACLE_PATH
  else if decide (fn = "Deposit") then
    path = COMPILED_CLOUD_SLA_PATH
    ∧ ∃ c args, (c, "getSmartContractAddress", args, inr addr) ∈ called evs
  else cloud_address_of sc = Some addr ∧ path = COMPILED_CLOUD_SLA_PATH.

(** A run follows the plan of its scenario method: senders, keys and
    contracts are the ones the source names. *)
Definition follows_plan (s : ContractTest) (sc : scenario) (evs : list event) : Prop :=
  (λ b, b_transaction b !! "from") <$> built evs = (λ i, VStr <$> accounts s !! i) <$> signers sc
  ∧ Some <$> (signed evs).*2 = (λ i, private_keys s !! i) <$> signers sc
  ∧ Forall (λ b, ∃ addr path,
              Event (get_contract addr path) (inr (b_contract b)) ∈ evs
              ∧ target_ok s sc evs (b_fn b) addr path)
      (built evs).

(** The line [sign_send_transaction] prints for a caught exception:
    [f"{type(e)} [sign_send]: {e}"]. *)
Definition caught_line (e : exn) : string :=
  "<class '" +:+ class_name (class_of e) +:+ "'> [sign_send]: " +:+ message e.

(** The lines printed for the exceptions of a log that
    [sign_send_transaction] catches. *)
Definition caught_lines (evs : list event) : list string :=
  caught_line <$> filter (λ e, isinstance e [ValueError; TimeExhausted] = true) (raised evs).

(** The success lines of a scenario method; the [sequence_] methods have
    none, and the one of [cloud_sla_creation_activation] is followed by the
    address its read-only call was answered with. *)
Definition success_lines (sc : scenario) (evs : list event) : list string :=
  match sc with
  | CloudSlaCreationActivation =>
      match called evs with
      | [(_, _, _, inr a)] =>
          ["CloudSLA creation and activation: OK";
           String (Ascii.ascii_of_nat 9) "address: " +:+ a]
      | _ => []
      end
  | SequenceUpload _ _ _ | SequenceRead _ _ _ | SequenceFile _ _ _ _ => []
  | Upload _ => ["Upload: OK"]
  | Read _ => ["Read: OK"]
  | Delete _ => ["Delete: OK"]
  | FileCheckUndeletedFile _ => ["File check for undeleted file: OK"]
  | AnotherFileUpload _ => ["Another file upload: OK"]
  | ReadDenyLostFileCheck _ => ["Read Deny with lost file check: OK"]
  | AnotherFileUploadRead _ => ["Another file upload + read: OK"]
  | CorruptedFileCheck _ => ["File Check for corrupted file: OK"]
  end.

(** A node on which the gas estimate of [UploadRequestAck] is refused: like
    the healthy simulated node, but [buildTransaction] for that function
    raises a [ValueError]. *)
Definition estimating_node : ∀ X, call X → Z → result X * Z :=
  λ X c w,
    match c in call X return result X * Z → result X * Z with
    | buildTransaction _ fn _ _ =>
        λ answered,
          if String.eqb fn "UploadRequestAck"
          then (inl (Exn ValueError "execution reverted"), w)
          else answered
    | _ => λ answered, answered
    end (sim_node healthy X c w).

(** ** Verification *)

Section Verification.
Context {World : Type}.
Variable node : ∀ X, call X → World → result X * World.
Variable DEBUG : bool.

Implicit Types (m : machine World) (s : ContractTest) (idx : Z) (evs : list event).

(** *** Indexing *)

Lemma py_index_lt {A} (l : list A) i n : py_index l i = Some n → (n < length l)%nat.
Proof.
  unfold py_index. repeat case_bool_decide; intros [= <-]; lia.
Qed.

Lemma py_index_nonneg {A} (l : list A) i :
  (0 ≤ i < Z.of_nat (length l))%Z → py_index l i = Some (Z.to_nat i).
Proof.
  intros H. unfold py_index. by rewrite bool_decide_eq_true_2.
Qed.

Lemma py_index_length {A B} (l : list A) (l' : list B) i :
  length l = length l' → py_index l i = py_index l' i.
Proof. unfold py_index. by intros ->. Qed.

Lemma stored_nonneg {A} (l : list A) i :
  (0 ≤ i < Z.of_nat (length l))%Z → stored l i = l !! Z.to_nat i.
Proof. intros H. unfold stored. by rewrite py_index_nonneg. Qed.

(** *** The nonce manager, step by step *)

Lemma get_nonce_lock_run idx m :
  get_nonce_lock idx m =
    if lock (self m) then (Blocked, m)
    else match py_index (nonces (self m)) idx with
         | Some n =>
             match nonces (self m) !! n with
             | Some v =>
                 (Returned v,
                  Machine (set_lock false (set_nonces (<[n := (v + 1)%Z]> (nonces (self m))) (self m)))
                    (world m) (trace m) (stdout m) (clock m + 100)%N)
             | None =>
                 (Raised index_error,
                  Machine (set_lock true (self m)) (world m) (trace m) (stdout m) (clock m + 100)%N)
             end
         | None =>
             (Raised index_error,
              Machine (set_lock true (self m)) (world m) (trace m) (stdout m) (clock m + 100)%N)
         end.
Proof.
  unfold get_nonce_lock, mbind, M_bind, bind, lock_acquire, sleep, gets, getitem,
    nonces_setitem, lock_release, modify, mbind, M_bind, bind; simpl.
  destruct (lock (self m)); [done|].
  destruct (py_index (nonces (self m)) idx) as [n|] eqn:Hn; simpl; rewrite ?Hn; [|done].
  destruct (nonces (self m) !! n) as [v|] eqn:Hv; simpl; rewrite ?Hn, ?Hv; simpl; [|done].
  by rewrite ?Hn, ?Hv.
Qed.

Lemma get_nonce_lock_without_delay_run idx m :
  get_nonce_lock_without_delay idx m =
    if lock (self m) then (Blocked, m)
    else match py_index (nonces (self m)) idx with
         | Some n =>
             match nonces (self m) !! n with
             | Some v =>
                 (Returned v,
                  Machine (set_lock false (set_nonces (<[n := (v + 1)%Z]> (nonces (self m))) (self m)))
                    (world m) (trace m) (stdout m) (clock m))
             | None =>
                 (Raised index_error,
                  Machine (set_lock true (self m)) (world m) (trace m) (stdout m) (clock m))
             end
         | None =>
             (Raised index_error,
              Machine (set_lock true (self m)) (world m) (trace m) (stdout m) (clock m))
         end.
Proof.
  unfold get_nonce_lock_without_delay, mbind, M_bind, bind, lock_acquire, gets, getitem,
    nonces_setitem, lock_release, modify, mbind, M_bind, bind; simpl.
  destruct (lock (self m)); [done|].
  destruct (py_index (nonces (self m)) idx) as [n|] eqn:Hn; simpl; rewrite ?Hn; [|done].
  destruct (nonces (self m) !! n) as [v|] eqn:Hv; simpl; rewrite ?Hn, ?Hv; simpl; [|done].
  by rewrite ?Hn, ?Hv.
Qed.

(** A completed call: what it returned and what it left. *)
Lemma get_nonce_lock_returned idx m v m' :
  get_nonce_lock idx m = (Returned v, m') →
  ∃ n, py_index (nonces (self m)) idx = Some n
    ∧ nonces (self m) !! n = Some v
    ∧ lock (self m) = false
    ∧ m' = Machine (set_nonces (<[n := (v + 1)%Z]> (nonces (self m))) (self m))
             (world m) (trace m) (stdout m) (clock m + 100)%N.
Proof.
  rewrite get_nonce_lock_run.
  destruct (lock (self m)) eqn:Hl; [done|].
  destruct (py_index _ idx) as [n|] eqn:Hn; [|done].
  destruct (nonces (self m) !! n) as [x|] eqn:Hx; [|done].
  intros [= -> <-]. exists n. repeat split; try done.
  f_equal. destruct m as [[] ? ? ? ?]; simpl in *. by subst.
Qed.


(** *** Rules for [wp] *)

Lemma wp_mono {A} (p : M A) m (Q Q' : outcome A → machine World → Prop) :
  wp p m Q → (∀ o m', Q o m' → Q' o m') → wp p m Q'.
Proof. unfold wp. auto. Qed.

Lemma wp_bind {A B} (p : M A) (k : A → M B) m Q :
  wp p m (λ o m', match o with
                  | Returned a => wp (k a) m' Q
                  | Raised e => Q (Raised e) m'
                  | Blocked => Q Blocked m'
                  end) →
  wp (p ≫= k) m Q.
Proof.
  unfold wp, mbind, M_bind, bind. by destruct (p m) as [[a|e|] m'].
Qed.

Lemma wp_ret {A} (a : A) m (Q : outcome A → machine World → Prop) :
  Q (Returned a) m → wp (mret a) m Q.
Proof. done. Qed.

Lemma wp_raise {A} e m (Q : outcome A → machine World → Prop) :
  Q (Raised e) m → wp (raise e) m Q.
Proof. done. Qed.

Lemma wp_gets {A} (f : ContractTest → A) m Q :
  Q (Returned (f (self m))) m → wp (gets f) m Q.
Proof. done. Qed.

Lemma wp_modify f m Q :
  Q (Returned ()) (Machine (f (self m)) (world m) (trace m) (stdout m) (clock m)) →
  wp (modify f) m Q.
Proof. done. Qed.

Lemma wp_print str m Q :
  Q (Returned ()) (Machine (self m) (world m) (trace m) (stdout m ++ [str]) (clock m)) →
  wp (print str) m Q.
Proof. done. Qed.

Lemma wp_ext {X} (c : call X) m Q :
  (∀ r w', node X c (world m) = (r, w') →
     Q (match r with inl e => Raised e | inr x => Returned x end)
       (Machine (self m) w' (trace m ++ [Event c r]) (stdout m) (clock m))) →
  wp (ext node c) m Q.
Proof.
  intros H. unfold wp, ext. destruct (node X c (world m)) as [r w'] eqn:E.
  specialize (H r w' eq_refl). by destruct r.
Qed.

Lemma wp_getitem {A} (l : list A) i m Q :
  match stored l i with
  | Some x => Q (Returned x) m
  | None => Q (Raised index_error) m
  end →
  wp (getitem l i) m Q.
Proof.
  unfold wp, getitem, stored. destruct (py_index l i) as [n|]; simpl; [|done].
  by destruct (l !! n).
Qed.

Lemma wp_nonces_setitem i v m Q :
  match py_index (nonces (self m)) i with
  | Some n => Q (Returned ())
                (Machine (set_nonces (<[n := v]> (nonces (self m))) (self m))
                   (world m) (trace m) (stdout m) (clock m))
  | None => Q (Raised assignment_index_error) m
  end →
  wp (nonces_setitem i v) m Q.
Proof.
  unfold wp, nonces_setitem, mbind, M_bind, bind, gets; simpl.
  by destruct (py_index (nonces (self m)) i).
Qed.

Lemma wp_lock_acquire m Q :
  (if lock (self m) then Q Blocked m
   else Q (Returned ()) (Machine (set_lock true (self m)) (world m) (trace m) (stdout m) (clock m))) →
  wp lock_acquire m Q.
Proof. unfold wp, lock_acquire. by destruct (lock (self m)). Qed.

Lemma wp_lock_release m Q :
  (if lock (self m)
   then Q (Returned ()) (Machine (set_lock false (self m)) (world m) (trace m) (stdout m) (clock m))
   else Q (Raised (Exn (OtherException "RuntimeError") "release unlocked lock")) m) →
  wp lock_release m Q.
Proof.
  unfold wp, lock_release, mbind, M_bind, bind, gets; simpl.
  by destruct (lock (self m)).
Qed.

Lemma wp_when (b : bool) p m Q :
  (if b then wp p m Q else Q (Returned ()) m) → wp (when b p) m Q.
Proof. by destruct b. Qed.

Lemma py_index_Some_nonneg {A} (l : list A) i n :
  (0 ≤ i)%Z → py_index l i = Some n → n = Z.to_nat i ∧ (n < length l)%nat.
Proof.
  unfold py_index. intros Hi. repeat case_bool_decide; intros [= <-]; lia.
Qed.

Lemma stored_Some_nonneg {A} (l : list A) i x :
  (0 ≤ i)%Z → stored l i = Some x → l !! Z.to_nat i = Some x.
Proof.
  unfold stored. intros Hi. destruct (py_index l i) as [n|] eqn:E; [|done].
  apply py_index_Some_nonneg in E as [-> _]; done.
Qed.

Lemma stored_None_nonneg {A} (l : list A) i :
  (0 ≤ i)%Z → stored l i = None → (length l ≤ Z.to_nat i)%nat.
Proof.
  unfold stored, py_index. intros Hi.
  repeat case_bool_decide; simpl; try lia.
  intros Hnone%lookup_ge_None. lia.
Qed.

Ltac wp_simpl :=
  cbn [self world trace stdout clock
       factory_address oracle_address accounts private_keys w3_provider lock nonces
       set_nonces set_lock set_addresses set_settings set_w3 fst snd].

Ltac wp_simpl_in H :=
  cbn [self world trace stdout clock
       factory_address oracle_address accounts private_keys w3_provider lock nonces
       set_nonces set_lock set_addresses set_settings set_w3 fst snd] in H.

(** One step of symbolic execution: the rule of the head operation, with a
    case split where the operation can fail. *)
Ltac wp_step :=
  lazymatch goal with
  | |- wp (mbind _ _) _ _ => apply wp_bind
  | |- wp (bind _ _) _ _ => apply wp_bind
  | |- wp (mret _) _ _ => apply wp_ret
  | |- wp (ret _) _ _ => apply wp_ret
  | |- wp (raise _) _ _ => apply wp_raise
  | |- wp (gets _) _ _ => apply wp_gets
  | |- wp (modify _) _ _ => apply wp_modify
  | |- wp (print _) _ _ => apply wp_print
  | |- wp (when ?b _) _ _ => apply wp_when; destruct b
  | |- wp lock_acquire ?m _ =>
      apply wp_lock_acquire; wp_simpl;
      let E := fresh "Hlock" in
      lazymatch goal with |- context [if ?b then _ else _] => destruct b eqn:E end
  | |- wp lock_release ?m _ => apply wp_lock_release
  | |- wp (nonces_setitem ?i _) ?m _ =>
      apply wp_nonces_setitem; wp_simpl;
      let E := fresh "Hset" in
      lazymatch goal with |- context [py_index ?l i] => destruct (py_index l i) eqn:E end
  | |- wp (getitem ?l ?i) _ _ =>
      apply wp_getitem; wp_simpl;
      let E := fresh "Hget" in
      lazymatch goal with
      | |- match ?x with Some _ => _ | None => _ end =>
          first [ match goal with H : x = _ |- _ => rewrite H end | destruct x eqn:E ]
      end
  | |- wp (ext _ _) _ _ =>
      apply wp_ext; let E := fresh "Hnode" in intros [?|?] ? E; wp_simpl_in E
  end; wp_simpl.

Lemma update_nonces_wp m :
  wp (update_nonces node) m (λ o m',
    length (nonces (self m')) = length (nonces (self m))
    ∧ stdout m' = stdout m ∧ clock m' = clock m
    ∧ match o with
      | Returned _ =>
          ∃ a0 a1 a2 c0 c1 c2,
            accounts (self m) !! 0%nat = Some a0
            ∧ accounts (self m) !! 1%nat = Some a1
            ∧ accounts (self m) !! 2%nat = Some a2
            ∧ trace m' = trace m ++
                [Event (get_transaction_count w3_async a0) (inr c0);
                 Event (get_transaction_count w3_async a1) (inr c1);
                 Event (get_transaction_count w3_async a2) (inr c2)]
            ∧ (3 ≤ length (nonces (self m)))%nat
            ∧ self m' = set_nonces (<[2%nat := c2]> (<[1%nat := c1]> (<[0%nat := c0]> (nonces (self m)))))
                          (self m)
      | Raised e => self m' = set_lock true (set_nonces (nonces (self m')) (self m))
      | Blocked => lock (self m) = true ∧ m' = m
      end).
Proof.
  unfold update_nonces, range. cbn [seq fmap list_fmap for_in Z.of_nat].
  repeat wp_step.
  all: rewrite ?length_insert.
  all: repeat split; try done.
  apply py_index_Some_nonneg in Hset as [-> Hlen]; [|lia].
  apply py_index_Some_nonneg in Hset0 as [-> _]; [|lia].
  apply py_index_Some_nonneg in Hset1 as [-> Hlen2]; [|lia].
  rewrite !length_insert in Hlen2.
  apply stored_Some_nonneg in Hget, Hget0, Hget1; try lia.
  simpl in Hget, Hget0, Hget1.
  do 6 eexists. rewrite <- !app_assoc.
  repeat split; try eassumption; try reflexivity; try (simpl in Hlen2; lia).
  destruct (self m); simpl in *. by subst.
Qed.


Lemma init_wp blockchain m :
  wp (__init__ node blockchain) m (λ o m',
    match o with
    | Returned _ =>
        ∃ fa oa acc pks a0 a1 a2 c0 c1 c2,
          acc !! 0%nat = Some a0 ∧ acc !! 1%nat = Some a1 ∧ acc !! 2%nat = Some a2
          ∧ trace m' = trace m ++
              [Event (get_addresses blockchain) (inr (fa, oa));
               Event (get_settings blockchain) (inr (acc, pks));
               Event (get_transaction_count w3 a0) (inr c0);
               Event (get_transaction_count w3 a1) (inr c1);
               Event (get_transaction_count w3 a2) (inr c2)]
          ∧ self m' =
              {| factory_address := fa; oracle_address := oa; accounts := acc;
                 private_keys := pks;
                 w3_provider := if String.eqb blockchain "polygon"
                                then HTTPProvider else WebsocketProvider;
                 lock := false; nonces := [c0; c1; c2] |}
    | Raised _ => True
    | Blocked => False
    end).
Proof.
  unfold __init__, range. cbn [seq fmap list_fmap for_in Z.of_nat].
  repeat wp_step; try done.
  apply stored_Some_nonneg in Hget, Hget0, Hget1; try lia.
  destruct p as [fa oa], p0 as [acc pks]. simpl in *.
  do 10 eexists. rewrite <- !app_assoc.
  repeat split; try eassumption; reflexivity.
Qed.

Lemma new_events_app m m' evs : trace m' = trace m ++ evs → new_events m m' = evs.
Proof. intros H. unfold new_events. by rewrite H, drop_app_length. Qed.

(** Reads the events a symbolic run has added to the log. *)
Ltac read_new_events :=
  unfold new_events; wp_simpl; rewrite <- ?app_assoc;
  first [ rewrite drop_app_length | rewrite drop_all | idtac ].

Lemma init_failure_wp blockchain m :
  wp (__init__ node blockchain) m (λ o m',
    match o with
    | Returned _ => (3 ≤ length (accounts (self m')))%nat
    | Raised e =>
        raised (new_events m m') = [e]
        ∨ (raised (new_events m m') = [] ∧ e = index_error
           ∧ ∃ acc pks,
               Event (get_settings blockchain) (inr (acc, pks)) ∈ new_events m m'
               ∧ (length acc < 3)%nat
               ∧ length (sync_lookups (new_events m m')) = length acc)
    | Blocked => False
    end).
Proof.
  unfold __init__, range. cbn [seq fmap list_fmap for_in Z.of_nat].
  repeat wp_step.
  all: repeat match goal with
              | H : stored _ _ = Some _ |- _ => apply stored_Some_nonneg in H; [|lia]
              | H : stored _ _ = None |- _ => apply stored_None_nonneg in H; [|lia]
              end.
  all: try (apply lookup_lt_Some in Hget1; simpl in Hget1; lia).
  all: try (left; read_new_events; reflexivity).
  all: right; read_new_events; (split; [reflexivity|]); (split; [reflexivity|]).
  all: destruct p0 as [acc pks]; exists acc, pks; simpl in *.
  all: repeat match goal with
              | H : _ !! _ = Some _ |- _ => apply lookup_lt_Some in H
              end.
  all: (split; [set_solver|]); simpl in *; lia.
Qed.

(** *** Sequential callers of [get_nonce_lock] *)

Lemma stored_insert_same (ns : list Z) idx n v :
  py_index ns idx = Some n → stored (<[n := v]> ns) idx = Some v.
Proof.
  intros Hn. unfold stored.
  rewrite (py_index_length (<[n := v]> ns) ns) by apply length_insert.
  rewrite Hn. simpl. apply list_lookup_insert_eq. by eapply py_index_lt.
Qed.

Lemma stored_insert_mono (ns : list Z) idx idx' n v x :
  py_index ns idx = Some n → ns !! n = Some v → stored ns idx' = Some x →
  ∃ y, stored (<[n := (v + 1)%Z]> ns) idx' = Some y ∧ (x ≤ y)%Z.
Proof.
  intros Hn Hv. unfold stored.
  rewrite (py_index_length (<[n := (v + 1)%Z]> ns) ns) by apply length_insert.
  destruct (py_index ns idx') as [n'|] eqn:Hn'; simpl; [|done]. intros Hx.
  destruct (decide (n = n')) as [->|Hne].
  - exists (v + 1)%Z. rewrite list_lookup_insert_eq by (by eapply py_index_lt).
    split; [done|]. assert (x = v) by congruence. lia.
  - exists x. by rewrite list_lookup_insert_ne.
Qed.

Lemma run_all_get_nonce_lock_lower_bound (idxs : list Z) : ∀ m vs m',
  run_all (get_nonce_lock <$> idxs) m = (vs, m') →
  ∀ j idx b x, idxs !! j = Some idx → vs !! j = Some b →
    stored (nonces (self m)) idx = Some x → (x ≤ b)%Z.
Proof.
  induction idxs as [|idx0 idxs IH]; intros m vs m' Hrun j idx b x Hj Hb Hx; [done|].
  simpl in Hrun.
  destruct (get_nonce_lock idx0 m) as [[v| |] m1] eqn:Hcall;
    try (injection Hrun as <- <-; done).
  match type of Hrun with
  | context [run_all ?l ?x] => destruct (run_all l x) as [vs' m2] eqn:Hrest
  end.
  injection Hrun as <- <-.
  apply get_nonce_lock_returned in Hcall as (n & Hn & Hv & _ & ->).
  destruct j as [|j]; simpl in *.
  - simplify_eq/=.
    unfold stored in Hx. rewrite Hn in Hx. simpl in Hx. assert (x = b) by congruence. lia.
  - destruct (stored_insert_mono _ _ idx _ _ _ Hn Hv Hx) as (y & Hy & Hxy).
    pose proof (IH _ _ _ Hrest j idx b y Hj Hb Hy). lia.
Qed.

Lemma run_all_get_nonce_lock_increasing (idxs : list Z) : ∀ m vs m',
  run_all (get_nonce_lock <$> idxs) m = (vs, m') →
  ∀ i j idx a b, (i < j)%nat → idxs !! i = Some idx → idxs !! j = Some idx →
    vs !! i = Some a → vs !! j = Some b → (a < b)%Z.
Proof.
  induction idxs as [|idx0 idxs IH]; intros m vs m' Hrun i j idx a b Hij Hi Hj Ha Hb; [done|].
  simpl in Hrun.
  destruct (get_nonce_lock idx0 m) as [[v| |] m1] eqn:Hcall;
    try (injection Hrun as <- <-; done).
  match type of Hrun with
  | context [run_all ?l ?x] => destruct (run_all l x) as [vs' m2] eqn:Hrest
  end.
  injection Hrun as <- <-.
  destruct j as [|j]; [lia|]. simpl in Hj, Hb.
  destruct i as [|i]; simpl in Hi, Ha.
  - simplify_eq/=.
    apply get_nonce_lock_returned in Hcall as (n & Hn & Hv & _ & ->).
    pose proof (stored_insert_same (nonces (self m)) idx n (a + 1)%Z Hn) as Hst.
    pose proof (run_all_get_nonce_lock_lower_bound _ _ _ _ Hrest j idx b _ Hj Hb Hst). lia.
  - eapply (IH _ _ _ Hrest i j); eauto. lia.
Qed.

(** C3: for an account index 0, 1 or 2, a completed [get_nonce_lock idx]
    returns the nonce stored for that account at the start of the call and
    leaves the stored nonce one higher; on an object as [__init__] leaves it
    the call does complete; and of callers that complete one after the other,
    a later caller for the same account always gets a strictly larger nonce,
    so no two of them see the same one. *)
Theorem get_nonce_lock_fresh_nonce idx m :
  (0 ≤ idx < 3)%Z →
  match get_nonce_lock idx m with
  | (Returned v, m') =>
      nonces (self m) !! Z.to_nat idx = Some v
      ∧ nonces (self m') !! Z.to_nat idx = Some (v + 1)%Z
  | (Raised _, _) => lock (self m) = false ∧ (length (nonces (self m)) ≤ Z.to_nat idx)%nat
  | (Blocked, _) => lock (self m) = true
  end
  ∧ (∀ idxs vs m', run_all (get_nonce_lock <$> idxs) m = (vs, m') →
       ∀ i j a b, (i < j)%nat → idxs !! i = Some idx → idxs !! j = Some idx →
         vs !! i = Some a → vs !! j = Some b → (a < b)%Z ∧ a ≠ b).
Proof.
  intros Hidx. split.
  - rewrite get_nonce_lock_run.
    destruct (lock (self m)) eqn:Hl; [done|].
    destruct (py_index (nonces (self m)) idx) as [n|] eqn:Hn.
    + apply py_index_Some_nonneg in Hn as [-> Hlt]; [|lia].
      destruct (nonces (self m) !! Z.to_nat idx) as [v|] eqn:Hv.
      * simpl. split; [done|]. by apply list_lookup_insert_eq.
      * apply lookup_ge_None in Hv. lia.
    + split; [done|]. unfold py_index in Hn.
      repeat case_bool_decide; try done; lia.
  - intros idxs vs m' Hrun i j a b Hij Hi Hj Ha Hb.
    pose proof (run_all_get_nonce_lock_increasing _ _ _ _ Hrun i j idx a b Hij Hi Hj Ha Hb).
    split; lia.
Qed.

(** *** Callers of [get_nonce_lock] on one event loop *)

(** The method as [M] has it is its coroutine awaited on its own. *)
Lemma await_get_nonce_lock idx :
  await (get_nonce_lock_coroutine idx) = get_nonce_lock (World := World) idx.
Proof. reflexivity. Qed.

Lemma wait_until_past t m : (t ≤ clock m)%N → wait_until t m = (Returned (), m).
Proof.
  intros H. destruct m as [s w tr out c]. unfold wait_until. simpl in *.
  by rewrite N.max_l.
Qed.

Lemma sleep_wait_until ms m :
  wait_until (clock m + ms) m = sleep ms m.
Proof. unfold wait_until, sleep. by rewrite N.max_r by lia. Qed.

Lemma next_due_first {A} (t : @task World A) q : due t = 0%N → next_due (t :: q) = Some (t, q).
Proof.
  intros H. simpl. destruct (next_due q) as [[t' rest]|]; [|done].
  rewrite H. by destruct (due t').
Qed.

(** A single task on the loop: what the coroutine does awaited on its own. *)
Lemma run_loop_alone {A} (c : @coroutine World A) : ∀ fuel k t fin m,
  (stretches c ≤ fuel)%nat →
  run_loop fuel [Task k t c] fin m =
    match (wait_until t;; await c) m with
    | (Returned a, m') => (Returned (fin ++ [(k, inr a)]), m')
    | (Raised e, m') => (Returned (fin ++ [(k, inl e)]), m')
    | (Blocked, m') => (Blocked, m')
    end.
Proof.
  induction c as [p|p ms rest IH]; intros fuel k t fin m Hfuel;
    (destruct fuel as [|fuel]; [simpl in Hfuel; lia|]).
  - cbn [run_loop next_due body slot due await].
    unfold mbind, M_bind, bind, stretch, wait_until. simpl.
    destruct (p _) as [[a|e|] m']; simpl; try done; by destruct fuel.
  - cbn [run_loop next_due body slot due await].
    unfold mbind, M_bind, bind, stretch, loop_time. simpl.
    destruct (p _) as [[[]|e|] m']; simpl; [|by destruct fuel|done].
    rewrite IH by (simpl in Hfuel; lia).
    unfold mbind, M_bind, bind. by rewrite sleep_wait_until.
Qed.

Lemma run_until_complete_alone {A} (c : @coroutine World A) m :
  run_until_complete [c] m =
    match await c m with
    | (Returned a, m') => (Returned [(0%nat, inr a)], m')
    | (Raised e, m') => (Returned [(0%nat, inl e)], m')
    | (Blocked, m') => (Blocked, m')
    end.
Proof.
  unfold run_until_complete. simpl. rewrite run_loop_alone by lia.
  unfold mbind, M_bind, bind. by rewrite wait_until_past by lia.
Qed.

(** The loop never stops for lack of fuel: when [run_until_complete]
    returns, every task has ended. *)
Lemma next_due_None {A} (q : list (@task World A)) : next_due q = None → q = [].
Proof.
  destruct q as [|t q]; [done|]. simpl.
  destruct (next_due q) as [[t' rest]|]; [|done]. by destruct (due t' <? due t)%N.
Qed.

Lemma next_due_Some {A} (q : list (@task World A)) : ∀ t q',
  next_due q = Some (t, q') →
  length q = S (length q')
  ∧ sum_list_with (stretches ∘ body) q
    = (stretches (body t) + sum_list_with (stretches ∘ body) q')%nat.
Proof.
  induction q as [|x q IH]; intros t q' H; [done|]. simpl in H.
  destruct (next_due q) as [[t' rest]|] eqn:E.
  - destruct (IH _ _ eq_refl) as [Hlen Hsum].
    destruct (due t' <? due x)%N; injection H as <- <-; simpl in *; [|done].
    rewrite Hlen, Hsum. split; lia.
  - by injection H as <- <-.
Qed.

Lemma stretches_pos {A} (c : @coroutine World A) : (1 ≤ stretches c)%nat.
Proof. destruct c; simpl; lia. Qed.

Lemma run_loop_all_end {A} fuel : ∀ (q : list (@task World A)) fin m rs m',
  (sum_list_with (stretches ∘ body) q ≤ fuel)%nat →
  run_loop fuel q fin m = (Returned rs, m') →
  length rs = (length fin + length q)%nat.
Proof.
  induction fuel as [|fuel IH]; intros q fin m rs m' Hfuel Hrun.
  - destruct q as [|t q].
    + simpl in Hrun. injection Hrun as <- <-. simpl. lia.
    + simpl in Hfuel. pose proof (stretches_pos (body t)). lia.
  - cbn [run_loop] in Hrun. destruct (next_due q) as [[t q']|] eqn:E.
    + apply next_due_Some in E as [Hlen Hsum]. rewrite Hlen.
      unfold mbind, M_bind, bind, wait_until, stretch, loop_time in Hrun. simpl in Hrun.
      destruct (body t) as [p|p ms rest] eqn:Hb; simpl in Hsum;
        destruct (p _) as [[a|e|] m1]; try done.
      all: apply IH in Hrun;
        [ rewrite Hrun, ?length_app; simpl; lia
        | rewrite ?sum_list_with_app; simpl; lia ].
    + apply next_due_None in E as ->. simpl in Hrun. injection Hrun as <- <-. simpl. lia.
Qed.

Lemma run_until_complete_all_end {A} (cs : list (@coroutine World A)) m rs m' :
  run_until_complete cs m = (Returned rs, m') → length rs = length cs.
Proof.
  unfold run_until_complete. intros H. apply run_loop_all_end in H.
  - by rewrite H, length_imap.
  - set (f := λ i (c : @coroutine World A), Task i 0 c).
    assert (∀ i c, body (f i c) = c) as Hf by done.
    clearbody f. clear H. revert f Hf.
    induction cs as [|c cs IH]; intros f Hf; [done|].
    rewrite imap_cons, fmap_cons. simpl. rewrite Hf.
    specialize (IH (f ∘ S) (λ i c, Hf (S i) c)). lia.
Qed.

(** One turn of the loop for a task that is due. *)
Lemma run_loop_finish_step {A} fuel k (p : @M World A) q fin m :
  run_loop (S fuel) (Task k 0 (Finish p) :: q) fin m =
    match p m with
    | (Returned a, m') => run_loop fuel q (fin ++ [(k, inr a)]) m'
    | (Raised e, m') => run_loop fuel q (fin ++ [(k, inl e)]) m'
    | (Blocked, m') => (Blocked, m')
    end.
Proof.
  cbn [run_loop]. rewrite next_due_first by done. cbn [body due slot].
  unfold mbind, M_bind, bind. rewrite wait_until_past by lia. unfold stretch.
  by destruct (p m) as [[a|e|] m'].
Qed.

Lemma run_loop_await_step {A} fuel k p ms (rest : @coroutine World A) q fin m :
  run_loop (S fuel) (Task k 0 (AwaitSleep p ms rest) :: q) fin m =
    match p m with
    | (Returned _, m') => run_loop fuel (q ++ [Task k (clock m' + ms) rest]) fin m'
    | (Raised e, m') => run_loop fuel q (fin ++ [(k, inl e)]) m'
    | (Blocked, m') => (Blocked, m')
    end.
Proof.
  cbn [run_loop]. rewrite next_due_first by done. cbn [body due slot].
  unfold mbind, M_bind, bind. rewrite wait_until_past by lia. unfold stretch, loop_time.
  by destruct (p m) as [[a|e|] m'].
Qed.

(** Two or more callers started together: the first is suspended in its
    delay with the lock held, and the acquire of the second stops the
    thread. *)
Lemma run_until_complete_blocked idx1 idx2 idxs m :
  lock (self m) = false →
  run_until_complete (get_nonce_lock_coroutine <$> idx1 :: idx2 :: idxs) m
  = (Blocked, Machine (set_lock true (self m)) (world m) (trace m) (stdout m) (clock m)).
Proof.
  intros Hl. unfold run_until_complete. rewrite !fmap_cons.
  cbn [sum_list stretches get_nonce_lock_coroutine imap].
  match goal with
  | |- context [(id 2 + (id 2 + ?n))%nat] =>
      change (id 2 + (id 2 + n))%nat with (S (S (S (S n)))); generalize n
  end.
  intros fuel. unfold compose, get_nonce_lock_coroutine at 1 2.
  rewrite run_loop_await_step. unfold lock_acquire at 1. rewrite Hl. unfold modify.
  cbn [app]. rewrite run_loop_await_step. unfold lock_acquire at 1. done.
Qed.

(** Tasks that never await run one after the other, in the order of their
    creation. *)
Lemma run_loop_finish {A} (ps : list (@M World A)) : ∀ fuel k fin m vs m',
  (length ps ≤ fuel)%nat →
  run_all ps m = (vs, m') → length vs = length ps →
  run_loop fuel (imap (λ i c, Task (k + i) 0 c) (Finish <$> ps)) fin m
  = (Returned (fin ++ zip (seq k (length ps)) (inr <$> vs)), m').
Proof.
  induction ps as [|p ps IH]; intros fuel k fin m vs m' Hfuel Hrun Hlen.
  - simpl in Hrun. injection Hrun as <- <-. simpl. rewrite app_nil_r. by destruct fuel.
  - destruct fuel as [|fuel]; [simpl in Hfuel; lia|].
    simpl in Hrun. destruct (p m) as [[a|e|] m1] eqn:Hp;
      try (injection Hrun as <- <-; done).
    destruct (run_all ps m1) as [vs' m2] eqn:Hrest. injection Hrun as <- <-.
    rewrite fmap_cons, imap_cons. rewrite run_loop_finish_step, Hp.
    rewrite (imap_ext _ (λ i c, Task (S k + i) 0 c)) by (intros; simpl; f_equal; lia).
    rewrite (IH fuel (S k) _ m1 vs' m2) by (simpl in *; (lia || done)).
    rewrite Nat.add_0_r. simpl. by rewrite <- app_assoc.
Qed.

Lemma run_until_complete_without_delay idxs m vs m' :
  run_all (get_nonce_lock_without_delay <$> idxs) m = (vs, m') → length vs = length idxs →
  run_until_complete (get_nonce_lock_without_delay_coroutine <$> idxs) m
  = (Returned (zip (seq 0 (length idxs)) (inr <$> vs)), m').
Proof.
  intros Hrun Hlen. unfold run_until_complete.
  change (get_nonce_lock_without_delay_coroutine (World := World) <$> idxs)
    with ((Finish (World := World) ∘ get_nonce_lock_without_delay) <$> idxs).
  rewrite (list_fmap_compose get_nonce_lock_without_delay (Finish (World := World))).
  rewrite (run_loop_finish _ _ 0 [] m vs m').
  - by rewrite length_fmap.
  - rewrite length_fmap. clear. induction idxs as [|i idxs IH]; [simpl; lia|].
    rewrite !fmap_cons. cbn [sum_list_with stretches length]. change (id 1%nat) with 1%nat. lia.
  - done.
  - by rewrite length_fmap.
Qed.

(** Callers without the delay, one after the other, all return on a free
    lock. *)
Lemma run_all_without_delay_total idxs : ∀ m,
  lock (self m) = false →
  Forall (λ i, (0 ≤ i < Z.of_nat (length (nonces (self m))))%Z) idxs →
  ∃ vs m', run_all (get_nonce_lock_without_delay <$> idxs) m = (vs, m')
    ∧ length vs = length idxs ∧ lock (self m') = false.
Proof.
  induction idxs as [|i idxs IH]; intros m Hl Hall.
  - by exists [], m.
  - apply Forall_cons in Hall as [Hi Hall].
    rewrite fmap_cons. cbn [run_all].
    rewrite get_nonce_lock_without_delay_run, Hl, (py_index_nonneg _ _ Hi).
    destruct (lookup_lt_is_Some_2 (nonces (self m)) (Z.to_nat i)) as [v ->]; [lia|].
    match goal with
    | |- context [run_all ?l ?x] => destruct (IH x) as (vs & m' & Hrun & Hlen & Hl')
    end.
    { done. }
    { simpl. by rewrite length_insert. }
    rewrite Hrun. exists (v :: vs), m'. simpl. by rewrite Hlen.
Qed.

(** Callers one after the other: the delay of each costs time and nothing
    else. *)
Lemma run_all_delay_only_costs_time idxs :
  ∀ s (w : World) (t : list event) (out : list string) (c1 c2 : N),
  let r := run_all (get_nonce_lock <$> idxs) (Machine s w t out c1)
  in let r' := run_all (get_nonce_lock_without_delay <$> idxs) (Machine s w t out c2) in
  r.1 = r'.1 ∧ self r.2 = self r'.2 ∧ world r.2 = world r'.2
  ∧ trace r.2 = trace r'.2 ∧ stdout r.2 = stdout r'.2.
Proof.
  induction idxs as [|i idxs IH]; intros s w t out c1 c2; [done|].
  rewrite !fmap_cons. cbn [run_all].
  rewrite get_nonce_lock_run, get_nonce_lock_without_delay_run. simpl.
  destruct (lock s); [done|].
  destruct (py_index (nonces s) i) as [n|]; [|done].
  destruct (nonces s !! n) as [v|]; [|done].
  match goal with
  | |- context [run_all (get_nonce_lock <$> _) (Machine ?s' _ _ _ ?c)] =>
      specialize (IH s' w t out c c2)
  end.
  simpl in IH.
  destruct (run_all (get_nonce_lock <$> idxs) _) as [vs m1].
  destruct (run_all (get_nonce_lock_without_delay <$> idxs) _) as [vs' m2].
  simpl in *. destruct IH as (-> & ? & ? & ? & ?). done.
Qed.

(** C6 (amended): the delay of [get_nonce_lock] costs time and nothing else
    for a caller that has the event loop to itself, and for callers awaited
    one after the other: with the [asyncio.sleep] line removed the outcome,
    the object (its nonces included), the environment, the log and the
    output are the same, for every index and every starting state.  It is
    not so for callers started together on one event loop.  From a free
    lock, two or more callers with the delay stop the thread at the second
    caller's [acquire]: no caller returns, the nonces are untouched and the
    lock stays held.  With the delay removed the same callers, for indices
    inside the list, all return, with the nonces that callers awaited one
    after the other get. *)
Theorem get_nonce_lock_delay_on_event_loop idx (idxs : list Z) m :
  (let r := run_until_complete [get_nonce_lock_coroutine idx] m in
   let r' := run_until_complete [get_nonce_lock_without_delay_coroutine idx] m in
   r.1 = r'.1
   ∧ self r.2 = self r'.2 ∧ world r.2 = world r'.2
   ∧ trace r.2 = trace r'.2 ∧ stdout r.2 = stdout r'.2
   ∧ (clock r.2 = clock r'.2 + (if lock (self m) then 0 else 100))%N)
  ∧ (let r := run_all (await ∘ get_nonce_lock_coroutine <$> idxs) m in
     let r' := run_all (await ∘ get_nonce_lock_without_delay_coroutine <$> idxs) m in
     r.1 = r'.1
     ∧ self r.2 = self r'.2 ∧ world r.2 = world r'.2
     ∧ trace r.2 = trace r'.2 ∧ stdout r.2 = stdout r'.2)
  ∧ (lock (self m) = false → (2 ≤ length idxs)%nat →
     run_until_complete (get_nonce_lock_coroutine <$> idxs) m
     = (Blocked, Machine (set_lock true (self m)) (world m) (trace m) (stdout m) (clock m))
     ∧ (Forall (λ i, (0 ≤ i < Z.of_nat (length (nonces (self m))))%Z) idxs →
        ∃ vs m',
          run_until_complete (get_nonce_lock_without_delay_coroutine <$> idxs) m
          = (Returned (zip (seq 0 (length idxs)) (inr <$> vs)), m')
          ∧ length vs = length idxs
          ∧ lock (self m') = false
          ∧ (run_all (await ∘ get_nonce_lock_coroutine <$> idxs) m).1 = vs
          ∧ self (run_all (await ∘ get_nonce_lock_coroutine <$> idxs) m).2 = self m')).
Proof.
  split; [|split].
  - simpl. rewrite !run_until_complete_alone, await_get_nonce_lock.
    unfold get_nonce_lock_without_delay_coroutine. cbn [await].
    rewrite get_nonce_lock_run, get_nonce_lock_without_delay_run.
    destruct (lock (self m)).
    { repeat split; try done. simpl. lia. }
    destruct (py_index (nonces (self m)) idx) as [n|]; [|done].
    by destruct (nonces (self m) !! n).
  - change (await (World := World) ∘ get_nonce_lock_coroutine)
      with (get_nonce_lock (World := World)).
    change (await (World := World) ∘ get_nonce_lock_without_delay_coroutine)
      with (get_nonce_lock_without_delay (World := World)).
    destruct m as [s w t out c]. apply run_all_delay_only_costs_time.
  - intros Hl Hlen. split.
    + destruct idxs as [|idx1 [|idx2 idxs]]; simpl in Hlen; try lia.
      by apply run_until_complete_blocked.
    + intros Hall.
      destruct (run_all_without_delay_total idxs m Hl Hall) as (vs & m' & Hrun & Hvs & Hl').
      exists vs, m'. split; [by apply run_until_complete_without_delay|].
      split; [done|]. split; [done|].
      change (await (World := World) ∘ get_nonce_lock_coroutine)
        with (get_nonce_lock (World := World)).
      destruct m as [s w t out c].
      pose proof (run_all_delay_only_costs_time idxs s w t out c c) as H. simpl in H.
      rewrite Hrun in H. by destruct H as (? & ? & _).
Qed.

(** C7: [__init__] leaves exactly three nonces, one per configured
    account: when it returns, the accounts of the object are the ones the
    settings gave, there are at least three of them, and the three nonces
    are the transaction counts it looked up for the first three accounts,
    in order, and nothing else was looked up.  It does return unless a call
    raised or the settings hold fewer than three accounts.  On an object
    with three nonces [get_nonce_lock] and [update_nonces] leave three
    nonces, however they end. *)
Theorem nonces_has_three_entries blockchain idx m0 m :
  length (nonces (self m)) = 3%nat →
  wp (__init__ node blockchain) m0 (λ o m',
    match o with
    | Returned _ =>
        length (nonces (self m')) = 3%nat
        ∧ (3 ≤ length (accounts (self m')))%nat
        ∧ sync_lookups (new_events m0 m') = zip (take 3 (accounts (self m'))) (nonces (self m'))
        ∧ ∃ pks, Event (get_settings blockchain) (inr (accounts (self m'), pks))
                   ∈ new_events m0 m'
    | Raised e =>
        raised (new_events m0 m') = [e]
        ∨ ∃ acc pks, Event (get_settings blockchain) (inr (acc, pks)) ∈ new_events m0 m'
                     ∧ (length acc < 3)%nat
    | Blocked => False
    end)
  ∧ length (nonces (self (get_nonce_lock idx m).2)) = 3%nat
  ∧ length (nonces (self (update_nonces node m).2)) = 3%nat.
Proof.
  intros Hlen. split; [|split].
  - pose proof (init_wp blockchain m0) as H1.
    pose proof (init_failure_wp blockchain m0) as H2.
    unfold wp in *. destruct (__init__ node blockchain m0) as [[[]|e|] m']; simpl in *; [| |done].
    + destruct H1 as (fa & oa & acc & pks & a0 & a1 & a2 & c0 & c1 & c2
                      & H0 & H1 & H3 & Ht & Hs).
      rewrite (new_events_app _ _ _ Ht), Hs. simpl.
      split; [done|]. split; [by rewrite Hs in H2|].
      split.
      * destruct acc as [|x0 [|x1 [|x2 acc]]]; simplify_eq/=. done.
      * exists pks. set_solver.
    + destruct H2 as [H2|(_ & _ & acc & pks & Hin & Hacc & _)]; [by left|].
      right. eauto.
  - rewrite get_nonce_lock_run.
    destruct (lock (self m)); [done|].
    destruct (py_index (nonces (self m)) idx) as [n|]; [|done].
    destruct (nonces (self m) !! n); [|done].
    simpl. by rewrite length_insert.
  - pose proof (update_nonces_wp m) as H. unfold wp in H.
    destruct H as (H & _). by rewrite H.
Qed.


(** *** Submission *)

Lemma wp_try_except_else {A B} (body : M B) classes (handler : exn → M A) (orelse : B → M A) m Q :
  wp body m (λ o m', match o with
                     | Returned b => wp (orelse b) m' Q
                     | Raised e =>
                         if isinstance e classes then wp (handler e) m' Q else Q (Raised e) m'
                     | Blocked => Q Blocked m'
                     end) →
  wp (try_except_else body classes handler orelse) m Q.
Proof.
  unfold wp, try_except_else. destruct (body m) as [[b|e|] m']; simpl; [done| |done].
  by destruct (isinstance e classes).
Qed.

Lemma submission_only_log evs :
  Forall (λ ev, is_submission_event ev = true) evs →
  built evs = [] ∧ built_txs evs = [] ∧ lookups evs = [] ∧ called evs = [].
Proof.
  induction 1 as [|[X c r] evs Hc _ (IH1 & IH2 & IH3 & IH4)]; [done|].
  unfold built, built_txs, lookups, called in *.
  destruct c; simpl in *; try done.
Qed.

Ltac contradict_cooperative Hco :=
  match goal with
  | H : node _ ?c ?w = (inl ?e, _) |- _ =>
      let Hc := fresh in
      pose proof (Hco _ c w) as Hc; rewrite H in Hc; simpl in Hc;
      destruct Hc; congruence
  end.

Lemma sign_send_transaction_wp tx pk m :
  wp (sign_send_transaction node DEBUG tx pk) m (λ o m',
    ∃ sub w' out,
      m' = Machine (self m) w' (trace m ++ sub) (stdout m ++ out) (clock m)
      ∧ Forall (λ ev, is_submission_event ev = true) sub
      ∧ signed sub = [(tx, pk)]
      ∧ sent sub = signed_raws sub
      ∧ waited sub = sent_hashes sub
      ∧ match o with
        | Returned st =>
            statuses sub = [st]
            ∧ match raised sub with
              | [] => ∃ rc, receipts sub = [rc] ∧ st = status rc
              | e :: _ => isinstance e [ValueError; TimeExhausted] = true ∧ st = 0%Z
              end
        | Raised e =>
            raised sub = [e] ∧ isinstance e [ValueError; TimeExhausted] = false
            ∧ ¬ cooperative node
        | Blocked => False
        end).
Proof.
  unfold sign_send_transaction. apply wp_try_except_else.
  repeat wp_step.
  all: try (destruct (isinstance e [ValueError; TimeExhausted]) eqn:Hcaught; repeat wp_step).
  all: rewrite <- ?app_assoc.
  all: eexists _, _, _; (split; [try reflexivity|]).
  all: try (rewrite <- (app_nil_r (stdout m)) at 1; reflexivity).
  all: simpl.
  all: repeat split; try done.
  all: try (repeat constructor; done).
  all: try (by eexists).
  all: intros Hco; contradict_cooperative Hco.
Qed.

(** C1 (amended): [sign_send_transaction] calls out only to sign, send and
    wait, and its outcome is decided by the exception, if any, that one of
    them raised: with a [ValueError] or a [TimeExhausted] it returns 0 and
    nothing propagates; with none it returns the status of the receipt the
    wait was answered with; an exception of any other class propagates to
    the caller. *)
Theorem sign_send_transaction_outcome tx pk m :
  let r := sign_send_transaction node DEBUG tx pk m in
  let evs := new_events m r.2 in
  Forall (λ ev, is_submission_event ev = true) evs
  ∧ signed evs = [(tx, pk)]
  ∧ match raised evs with
    | [] => ∃ rc, receipts evs = [rc] ∧ r.1 = Returned (status rc)
    | e :: _ =>
        r.1 = if isinstance e [ValueError; TimeExhausted] then Returned 0%Z else Raised e
    end.
Proof.
  simpl. pose proof (sign_send_transaction_wp tx pk m) as H. unfold wp in H.
  destruct (sign_send_transaction node DEBUG tx pk m) as [o m']. simpl in *.
  destruct H as (sub & w' & out & -> & Hsub & Hs & _ & _ & Ho).
  unfold new_events. simpl. rewrite drop_app_length. do 2 (split; [done|]).
  destruct o as [st|e|]; [| |done].
  - destruct Ho as [_ Ho]. destruct (raised sub) as [|e ?].
    + destruct Ho as (rc & -> & ->). eauto.
    + by destruct Ho as [-> ->].
  - by destruct Ho as (-> & -> & _).
Qed.

(** *** Stretches of the log *)

Lemma check_statuses_app l1 l2 :
  check_statuses (l1 ++ l2) = check_statuses l1 && check_statuses l2.
Proof. apply forallb_app. Qed.

Lemma partial_log_nil acc : partial_log acc [].
Proof. by repeat split. Qed.

Lemma partial_log_app acc evs1 evs2 :
  partial_log acc evs1 → partial_log acc evs2 → partial_log acc (evs1 ++ evs2).
Proof.
  intros (Hb1 & Hn1 & Hs1 & Hw1) (Hb2 & Hn2 & Hs2 & Hw2).
  unfold partial_log, built, lookups, sent, signed_raws, waited, sent_hashes in *.
  rewrite !omap_app, !fmap_app, Forall_app. by rewrite Hn1, Hn2, Hs1, Hs2, Hw1, Hw2.
Qed.

Lemma complete_log_nil acc : complete_log acc [] [] [].
Proof. by repeat split. Qed.

Lemma complete_log_app acc fns1 fns2 sts1 sts2 evs1 evs2 :
  complete_log acc fns1 sts1 evs1 → complete_log acc fns2 sts2 evs2 →
  complete_log acc (fns1 ++ fns2) (sts1 ++ sts2) (evs1 ++ evs2).
Proof.
  intros (Hp1 & Hf1 & Hg1 & Hb1 & Hs1 & Hl1) (Hp2 & Hf2 & Hg2 & Hb2 & Hs2 & Hl2).
  split; [by apply partial_log_app|].
  unfold built, signed, built_txs, statuses in *.
  rewrite !omap_app, !fmap_app, !length_app.
  by rewrite Hf1, Hf2, Hg1, Hg2, Hb1, Hb2, Hs1, Hs2, Hl1, Hl2.
Qed.

Lemma quiet_log acc {X} (c : call X) r : quiet c = true → complete_log acc [] [] [Event c r].
Proof. destruct c; try done; intros _; by repeat split. Qed.

Lemma failed_lookup_log acc a e :
  partial_log acc [Event (get_transaction_count w3_async a) (inl e)].
Proof. by repeat split. Qed.

Lemma submission_log acc sub :
  Forall (λ ev, is_submission_event ev = true) sub →
  sent sub = signed_raws sub → waited sub = sent_hashes sub →
  partial_log acc sub.
Proof.
  intros (Hb & _ & Hl & _)%submission_only_log Hs Hw.
  unfold partial_log. by rewrite Hb, Hl.
Qed.

Lemma step_prefix_log acc c fn args p a n r :
  build_ok acc (Build_BuildRequest c fn args p) → from_nonce p = Some (a, n) →
  partial_log acc [Event (get_transaction_count w3_async a) (inr n);
                   Event (buildTransaction c fn args p) r].
Proof.
  intros Hok Hfn. unfold partial_log. simpl. rewrite Hfn.
  repeat split; try done. by apply Forall_singleton.
Qed.

Lemma step_log acc c fn args p a n tx pk st sub :
  build_ok acc (Build_BuildRequest c fn args p) → from_nonce p = Some (a, n) →
  Forall (λ ev, is_submission_event ev = true) sub →
  signed sub = [(tx, pk)] → sent sub = signed_raws sub → waited sub = sent_hashes sub →
  statuses sub = [st] →
  complete_log acc [fn] [st]
    ([Event (get_transaction_count w3_async a) (inr n);
      Event (buildTransaction c fn args p) (inr tx)] ++ sub).
Proof.
  intros Hok Hfn Hsub Hsg Hs Hw Hst.
  pose proof (submission_log acc sub Hsub Hs Hw) as Hp.
  apply submission_only_log in Hsub as (Hb & Hbt & Hl & _).
  split; [apply partial_log_app; [by apply step_prefix_log|done]|].
  unfold built, signed, built_txs, statuses in *.
  rewrite !omap_app. simpl. by rewrite Hb, Hbt, Hsg, Hst.
Qed.

Lemma complete_log_partial acc fns sts evs : complete_log acc fns sts evs → partial_log acc evs.
Proof. by intros [? _]. Qed.

(** *** Composing runs *)

Lemma run_post_shift {A} s0 t0 fns1 sts1 evs1 fns so_far (verdict : A → bool) o m' :
  complete_log (accounts s0) fns1 sts1 evs1 →
  run_post node s0 (t0 ++ evs1) fns (so_far && check_statuses sts1) verdict o m' →
  run_post node s0 t0 (fns1 ++ fns) so_far verdict o m'.
Proof.
  intros Hc (Hs & evs & Ht & Hp & Ho). split; [done|].
  exists (evs1 ++ evs). rewrite app_assoc. split; [done|].
  split; [apply partial_log_app; [by eapply complete_log_partial|done]|].
  destruct o as [a|e|]; [|done..].
  destruct Ho as (sts & Hc' & Hv). exists (sts1 ++ sts).
  split; [by apply complete_log_app|].
  by rewrite Hv, check_statuses_app, andb_assoc.
Qed.

Lemma run_post_raised {A} s0 t0 evs fns so_far (verdict : A → bool) e m' :
  self m' = s0 → trace m' = t0 ++ evs → partial_log (accounts s0) evs →
  ¬ (cooperative node ∧ well_formed s0) →
  run_post node s0 t0 fns so_far verdict (Raised e) m'.
Proof. intros Hs Ht Hp Hn. split; [done|]. by exists evs. Qed.

Lemma run_post_returned {A} s0 t0 so_far (verdict : A → bool) a m' :
  self m' = s0 → trace m' = t0 → verdict a = so_far →
  run_post node s0 t0 [] so_far verdict (Returned a) m'.
Proof.
  intros Hs Ht Hv. split; [done|]. exists []. rewrite app_nil_r.
  split; [done|]. split; [apply partial_log_nil|].
  exists []. split; [apply complete_log_nil|]. simpl. by rewrite andb_true_r.
Qed.

Lemma stored_take_3 (acc : list Address) i a :
  (0 ≤ i < 3)%Z → stored acc i = Some a → a ∈ take 3 acc.
Proof.
  intros Hi Ha. apply stored_Some_nonneg in Ha; [|lia].
  apply list_elem_of_lookup. exists (Z.to_nat i).
  rewrite lookup_take_lt by lia. done.
Qed.

Lemma build_ok_plain acc c fn args a n :
  fn ≠ "Deposit" →
  (fn = "createChild" → args !! 2%nat = Some (VInt toWei_0_001_ether)) →
  a ∈ take 3 acc →
  build_ok acc (Build_BuildRequest c fn args
    (dict_of [("gasPrice", VInt 0); ("from", VStr a); ("nonce", VInt n)])).
Proof.
  intros Hfn Hargs Ha. unfold build_ok, dict_of. simpl.
  split; [done|]. split; [by exists a|]. split; [|done].
  intros v. split; [done|]. by intros [? _].
Qed.

Lemma build_ok_deposit acc c args a n :
  a ∈ take 3 acc →
  build_ok acc (Build_BuildRequest c "Deposit" args
    (dict_of [("gasPrice", VInt 0); ("from", VStr a); ("nonce", VInt n);
              ("value", VInt toWei_0_001_ether)])).
Proof.
  intros Ha. unfold build_ok, dict_of. simpl.
  split; [done|]. split; [by exists a|]. split; [|done].
  intros v. split; [by intros [= <-]|]. by intros [_ ->].
Qed.

Lemma from_nonce_plain a n :
  from_nonce (dict_of [("gasPrice", VInt 0); ("from", VStr a); ("nonce", VInt n)]) = Some (a, n).
Proof. done. Qed.

Lemma from_nonce_deposit a n v :
  from_nonce (dict_of [("gasPrice", VInt 0); ("from", VStr a); ("nonce", VInt n); ("value", v)])
  = Some (a, n).
Proof. done. Qed.

(** *** Rules for scenario code *)

Lemma ok_ret {A} (a : A) so_far (verdict : A → bool) :
  verdict a = so_far → ok node (mret a) [] so_far verdict.
Proof. intros Hv m. apply wp_ret. by apply run_post_returned. Qed.

Lemma ok_gets {A B} (f : ContractTest → B) (k : B → M A) fns so_far verdict :
  (∀ x, ok node (k x) fns so_far verdict) → ok node (gets f ≫= k) fns so_far verdict.
Proof. intros Hk m. apply wp_bind, wp_gets. apply Hk. Qed.

Lemma ok_ext_quiet {A X} (c : call X) (k : X → M A) fns so_far verdict :
  quiet c = true →
  (∀ x, ok node (k x) fns so_far verdict) → ok node (ext node c ≫= k) fns so_far verdict.
Proof.
  intros Hq Hk m. apply wp_bind, wp_ext. intros [e|x] w' Hnode.
  - eapply run_post_raised; [done|done|eapply complete_log_partial, (quiet_log _ c), Hq|].
    intros [Hco _]. pose proof (Hco _ c (world m)) as Hc. rewrite Hnode in Hc.
    destruct Hc as [Hc _]. by destruct c.
  - eapply wp_mono; [apply Hk|]. intros o m'. simpl. intros H.
    apply (run_post_shift _ _ [] [] [Event c (inr x)]); [by apply quiet_log|].
    simpl. by rewrite andb_true_r.
Qed.

Lemma ok_getitem_accounts {A} i (k : Address → M A) fns so_far verdict :
  (0 ≤ i < 3)%Z →
  (∀ x, ok node (k x) fns so_far verdict) →
  ok node (gets accounts ≫= λ acc, getitem acc i ≫= k) fns so_far verdict.
Proof.
  intros Hi Hk m. apply wp_bind, wp_gets, wp_bind, wp_getitem.
  destruct (stored (accounts (self m)) i) as [x|] eqn:Hx; [apply Hk|].
  eapply (run_post_raised _ _ []); [done|by rewrite app_nil_r|apply partial_log_nil|].
  intros (_ & Hacc & _). apply stored_None_nonneg in Hx; lia.
Qed.

Lemma ok_prints {A} b (p : M ()) (k : M A) fns so_far verdict :
  prints_only p →
  ok node k fns so_far verdict → ok node (when b p ≫= λ _, k) fns so_far verdict.
Proof.
  intros Hp Hk m. apply wp_bind, wp_when. destruct b; [|apply Hk].
  unfold wp at 1. destruct (Hp m) as [out ->]. simpl. apply (Hk (Machine _ _ _ _ _)).
Qed.

Lemma prints_only_print str : prints_only (World := World) (print str).
Proof. intros m. by exists [str]. Qed.

Lemma prints_only_seq (p q : @M World ()) : prints_only p → prints_only q → prints_only (p ≫= λ _, q).
Proof.
  intros Hp Hq m. unfold mbind, M_bind, bind. destruct (Hp m) as [out1 ->].
  destruct (Hq (Machine (self m) (world m) (trace m) (stdout m ++ out1) (clock m))) as [out2 ->].
  exists (out1 ++ out2). simpl. by rewrite app_assoc.
Qed.

(** One step of a scenario: look up the nonce, build, sign and submit. *)
Lemma ok_step {A} c fn args i (mk : Address → Z → dict) (k : Z → M A) fns so_far verdict :
  (0 ≤ i < 3)%Z →
  (∀ a n, from_nonce (mk a n) = Some (a, n)) →
  (∀ acc a n, a ∈ take 3 acc → build_ok acc (Build_BuildRequest c fn args (mk a n))) →
  (∀ st, ok node (k st) fns (so_far && negb (st =? 0)%Z) verdict) →
  ok node
    (gets accounts ≫= λ acc, getitem acc i ≫= λ sender,
     get_nonce node i ≫= λ nonce,
     ext node (buildTransaction c fn args (mk sender nonce)) ≫= λ tx,
     gets private_keys ≫= λ pks, getitem pks i ≫= λ pk,
     sign_send_transaction node DEBUG tx pk ≫= k)
    (fn :: fns) so_far verdict.
Proof.
  intros Hi Hfn Hok Hk m. unfold get_nonce.
  repeat wp_step.
  - eapply run_post_raised; [done|done|apply failed_lookup_log|].
    intros [Hco _]. contradict_cooperative Hco.
  - rewrite <- app_assoc.
    eapply run_post_raised; [done|done|apply step_prefix_log; [|done]|].
    + eapply Hok, stored_take_3; [|done]. lia.
    + intros [Hco _]. contradict_cooperative Hco.
  - eapply wp_mono; [apply sign_send_transaction_wp|].
    intros o m' (sub & w'' & out & -> & Hsub & Hsigned & Hsent & Hwaited & Ho).
    wp_simpl. rewrite <- !app_assoc.
    match goal with
    | H : stored (accounts _) _ = Some ?a |- context [mk ?a ?n] =>
        assert (build_ok (accounts (self m)) (Build_BuildRequest c fn args (mk a n))) as Hb
          by (eapply Hok, stored_take_3; [|exact H]; lia)
    end.
    destruct o as [st|e|]; [| |done].
    + destruct Ho as [Hst _].
      eapply wp_mono; [apply Hk|]. intros o m'. wp_simpl. intros H.
      rewrite <- ?app_assoc in H.
      eapply (run_post_shift _ _ [fn] [st]);
        [|simpl; rewrite andb_true_r; exact H].
      by eapply (step_log _ _ _ _ _ _ _ _ _ _ sub).
    + destruct Ho as (_ & _ & Hnc).
      eapply run_post_raised; [done|done| |by intros [? _]].
      apply (partial_log_app _ [_; _]); [by apply step_prefix_log|by apply submission_log].
  - rewrite <- app_assoc.
    eapply run_post_raised; [done|done|apply step_prefix_log; [|done]|].
    + eapply Hok, stored_take_3; [|done]. lia.
    + intros (_ & _ & Hpks & _).
      match goal with H : stored (private_keys _) _ = None |- _ =>
        apply stored_None_nonneg in H; lia end.
  - eapply (run_post_raised _ _ []); [done|by rewrite app_nil_r|apply partial_log_nil|].
    intros (_ & Hacc & _).
    match goal with H : stored (accounts _) _ = None |- _ =>
      apply stored_None_nonneg in H; lia end.
Qed.

Lemma ok_seq {A} (p : M bool) (k : bool → M A) fns1 fns2 so_far verdict :
  ok node p fns1 true id → (∀ b, ok node (k b) fns2 (so_far && b) verdict) →
  ok node (p ≫= k) (fns1 ++ fns2) so_far verdict.
Proof.
  intros Hp Hk m. apply wp_bind. eapply wp_mono; [apply Hp|].
  intros [b|e|] m1 (Hs & evs & Ht & Hpl & Ho); [| |done].
  - destruct Ho as (sts & Hc & Hb). simpl in Hb.
    eapply wp_mono; [apply Hk|]. intros o m'. rewrite Hs, Ht, Hb. intros H.
    by eapply run_post_shift.
  - by eapply run_post_raised.
Qed.

Lemma ok_fmap {A B} (p : M A) (f : A → B) fns so_far verdict verdict' :
  (∀ r, verdict' (f r) = verdict r) →
  ok node p fns so_far verdict → ok node (p ≫= λ r, mret (f r)) fns so_far verdict'.
Proof.
  intros Hf Hp m. apply wp_bind. eapply wp_mono; [apply Hp|].
  intros [r|e|] m1 (Hs & evs & Ht & Hpl & Ho); [| |done].
  - apply wp_ret. split; [done|]. exists evs. do 2 (split; [done|]).
    destruct Ho as (sts & Hc & Hv). exists sts. by rewrite Hf.
  - by eapply run_post_raised.
Qed.

Ltac solve_verdict :=
  simpl;
  repeat match goal with |- context [(?st =? 0)%Z] => destruct (st =? 0)%Z end;
  done.

Ltac ok_rule :=
  lazymatch goal with
  | |- ok _ (mret _) _ _ _ => apply ok_ret; solve_verdict
  | |- ok _ (mbind _ (gets accounts)) _ _ _ =>
      first
        [ apply ok_step;
            [ lia
            | first [ apply from_nonce_plain | intros; apply from_nonce_deposit ]
            | first [ intros; by apply build_ok_plain | intros; by apply build_ok_deposit ]
            | intros ? ]
        | apply ok_getitem_accounts; [lia | intros ?] ]
  | |- ok _ (mbind _ (gets _)) _ _ _ => apply ok_gets; intros ?
  | |- ok _ (mbind _ (ext _ _)) _ _ _ => apply ok_ext_quiet; [done | intros ?]
  | |- ok _ (mbind _ (when _ _)) _ _ _ =>
      apply ok_prints;
        [ repeat first [ apply prints_only_print | apply prints_only_seq ] | ]
  end.

Local Opaque get_nonce sign_send_transaction dict_of.

Lemma sequence_read_ok a f u :
  ok node (sequence_read node DEBUG a f u) ["ReadRequest"; "ReadRequestAck"] true id.
Proof. unfold sequence_read. repeat ok_rule. Qed.

Lemma sequence_upload_ok a f h :
  ok node (sequence_upload node DEBUG a f h)
    ["UploadRequest"; "UploadRequestAck"; "UploadTransferAck"] true id.
Proof. unfold sequence_upload. repeat ok_rule. Qed.

Lemma sequence_file_ok a f u h :
  ok node (sequence_file node DEBUG a f u h)
    ["FileHashRequest"; "DigestStore"; "FileCheck"] true id.
Proof. unfold sequence_file. repeat ok_rule. Qed.

Lemma delete_ok a :
  ok node (delete node DEBUG a) ["DeleteRequest"; "Delete"] true id.
Proof. unfold delete. repeat ok_rule. Qed.

Lemma read_deny_lost_file_check_ok a :
  ok node (read_deny_lost_file_check node DEBUG a) ["ReadRequest"; "ReadRequestDeny"] true id.
Proof. unfold read_deny_lost_file_check. repeat ok_rule. Qed.

Lemma cloud_sla_creation_activation_ok :
  ok node (cloud_sla_creation_activation node DEBUG) ["createChild"; "Deposit"] true snd.
Proof. unfold cloud_sla_creation_activation. repeat ok_rule. Qed.

Lemma upload_ok a :
  ok node (upload node DEBUG a) ["UploadRequest"; "UploadRequestAck"; "UploadTransferAck"] true id.
Proof.
  apply (ok_seq _ _ ["UploadRequest"; "UploadRequestAck"; "UploadTransferAck"] []);
    [apply sequence_upload_ok|]. intros b. repeat ok_rule.
Qed.

Lemma read_ok a :
  ok node (read node DEBUG a) ["ReadRequest"; "ReadRequestAck"] true id.
Proof.
  apply (ok_seq _ _ ["ReadRequest"; "ReadRequestAck"] []); [apply sequence_read_ok|].
  intros b. repeat ok_rule.
Qed.

Lemma file_check_undeleted_file_ok a :
  ok node (file_check_undeleted_file node DEBUG a)
    ["FileHashRequest"; "DigestStore"; "FileCheck"] true id.
Proof.
  apply (ok_seq _ _ ["FileHashRequest"; "DigestStore"; "FileCheck"] []);
    [apply sequence_file_ok|]. intros b. repeat ok_rule.
Qed.

Lemma another_file_upload_ok a :
  ok node (another_file_upload node DEBUG a)
    ["UploadRequest"; "UploadRequestAck"; "UploadTransferAck"] true id.
Proof.
  apply (ok_seq _ _ ["UploadRequest"; "UploadRequestAck"; "UploadTransferAck"] []);
    [apply sequence_upload_ok|]. intros b. repeat ok_rule.
Qed.

Lemma corrupted_file_check_ok a :
  ok node (corrupted_file_check node DEBUG a)
    ["FileHashRequest"; "DigestStore"; "FileCheck"] true id.
Proof.
  apply (ok_seq _ _ ["FileHashRequest"; "DigestStore"; "FileCheck"] []);
    [apply sequence_file_ok|]. intros b. repeat ok_rule.
Qed.

Lemma another_file_upload_read_ok a :
  ok node (another_file_upload_read node DEBUG a)
    ["UploadRequest"; "UploadRequestAck"; "UploadTransferAck"; "ReadRequest"; "ReadRequestAck"]
    true id.
Proof.
  apply (ok_seq _ _ ["UploadRequest"; "UploadRequestAck"; "UploadTransferAck"]
           ["ReadRequest"; "ReadRequestAck"]); [apply sequence_upload_ok|].
  intros b. apply (ok_seq _ _ ["ReadRequest"; "ReadRequestAck"] []); [apply sequence_read_ok|].
  intros b'. repeat ok_rule.
Qed.

(** Every scenario method, at once. *)
Lemma scenario_ok sc : ok node (scenario_result node DEBUG sc) (steps sc) true id.
Proof.
  destruct sc; simpl.
  - eapply ok_fmap; [|apply cloud_sla_creation_activation_ok]. done.
  - apply sequence_upload_ok.
  - apply sequence_read_ok.
  - apply sequence_file_ok.
  - apply upload_ok.
  - apply read_ok.
  - apply delete_ok.
  - apply file_check_undeleted_file_ok.
  - apply another_file_upload_ok.
  - apply read_deny_lost_file_check_ok.
  - apply another_file_upload_read_ok.
  - apply corrupted_file_check_ok.
Qed.

Local Transparent get_nonce sign_send_transaction dict_of.

(** *** Independence of the nonce counter *)

Lemma blind_ret {A} (a : A) : blind (World := World) (mret a).
Proof. done. Qed.

Lemma blind_bind {A B} (p : M A) (k : A → M B) :
  blind p → (∀ a, blind (k a)) → blind (World := World) (p ≫= k).
Proof.
  intros Hp Hk m ns lk. unfold mbind, M_bind, bind. rewrite Hp.
  destruct (p m) as [[a|e|] m1]; simpl; [apply Hk|done..].
Qed.

Lemma blind_ext {X} (c : call X) : blind (ext node c).
Proof.
  intros m ns lk. unfold ext. simpl.
  by destruct (node X c (world m)) as [[e|x] w'].
Qed.

Lemma blind_gets {A} (f : ContractTest → A) :
  (∀ s ns lk, f (set_lock lk (set_nonces ns s)) = f s) → blind (World := World) (gets f).
Proof. intros Hf m ns lk. unfold gets. simpl. by rewrite Hf. Qed.

Lemma blind_getitem {A} (l : list A) i : blind (World := World) (getitem l i).
Proof.
  intros m ns lk. unfold getitem.
  destruct (py_index l i) as [n|]; [|done]. by destruct (l !! n).
Qed.

Lemma blind_print str : blind (World := World) (print str).
Proof. done. Qed.

Lemma blind_when b (p : M ()) : blind p → blind (World := World) (when b p).
Proof. by destruct b. Qed.

Lemma blind_try_except_else {A B} (body : M B) classes (handler : exn → M A) (orelse : B → M A) :
  blind body → (∀ e, blind (handler e)) → (∀ b, blind (orelse b)) →
  blind (World := World) (try_except_else body classes handler orelse).
Proof.
  intros Hb Hh Ho m ns lk. unfold try_except_else. rewrite Hb.
  destruct (body m) as [[b|e|] m1]; simpl; [apply Ho| |done].
  destruct (isinstance e classes); [apply Hh|done].
Qed.

Ltac blind_rule :=
  lazymatch goal with
  | |- blind (mbind _ _) => apply blind_bind; [|intros ?]
  | |- blind (mret _) => apply blind_ret
  | |- blind (ret _) => apply blind_ret
  | |- blind (ext _ _) => apply blind_ext
  | |- blind (gets _) => apply blind_gets; done
  | |- blind (getitem _ _) => apply blind_getitem
  | |- blind (print _) => apply blind_print
  | |- blind (when _ _) => apply blind_when
  | |- blind (try_except_else _ _ _ _) => apply blind_try_except_else; [|intros ?|intros ?]
  end.

Lemma blind_get_nonce idx : blind (get_nonce node idx).
Proof. unfold get_nonce. repeat blind_rule. Qed.

Lemma blind_sign_send_transaction tx pk : blind (sign_send_transaction node DEBUG tx pk).
Proof. unfold sign_send_transaction. repeat blind_rule. Qed.

Ltac blind_auto :=
  repeat first [ blind_rule | apply blind_get_nonce | apply blind_sign_send_transaction ].

Lemma blind_sequence_upload a f h : blind (sequence_upload node DEBUG a f h).
Proof. unfold sequence_upload. blind_auto. Qed.

Lemma blind_sequence_read a f u : blind (sequence_read node DEBUG a f u).
Proof. unfold sequence_read. blind_auto. Qed.

Lemma blind_sequence_file a f u h : blind (sequence_file node DEBUG a f u h).
Proof. unfold sequence_file. blind_auto. Qed.

Lemma blind_scenario sc : blind (scenario_result node DEBUG sc).
Proof.
  destruct sc; simpl;
    unfold cloud_sla_creation_activation, upload, read, delete, file_check_undeleted_file,
      another_file_upload, read_deny_lost_file_check, another_file_upload_read,
      corrupted_file_check;
    repeat first [ blind_rule | apply blind_get_nonce | apply blind_sign_send_transaction
                 | apply blind_sequence_upload | apply blind_sequence_read
                 | apply blind_sequence_file ].
Qed.

(** *** The scenario methods *)

Lemma check_statuses_zero sts : 0%Z ∈ sts → check_statuses sts = false.
Proof.
  intros H. unfold check_statuses. apply not_true_is_false. intros Hall.
  rewrite forallb_forall in Hall. apply list_elem_of_In, Hall in H. done.
Qed.

Lemma check_statuses_true sts :
  check_statuses sts = true ↔ Forall (λ st, st ≠ 0%Z) sts.
Proof.
  unfold check_statuses. rewrite forallb_forall, Forall_forall.
  split; intros H st Hst.
  - apply list_elem_of_In, H in Hst. by destruct (Z.eqb_spec st 0).
  - apply list_elem_of_In, H in Hst. by destruct (Z.eqb_spec st 0).
Qed.

(** What [scenario_ok] says of one run. *)
Lemma scenario_run sc m :
  ∃ evs, let r := scenario_result node DEBUG sc m in
    self r.2 = self m ∧ new_events m r.2 = evs
    ∧ partial_log (accounts (self m)) evs
    ∧ match r.1 with
      | Returned b =>
          complete_log (accounts (self m)) (steps sc) (statuses evs) evs
          ∧ b = check_statuses (statuses evs)
      | Raised e => ¬ (cooperative node ∧ well_formed (self m))
      | Blocked => False
      end.
Proof.
  pose proof (scenario_ok sc m) as H. unfold wp in H.
  destruct H as (Hs & evs & Ht & Hp & Ho). exists evs. simpl.
  rewrite (new_events_app _ _ _ Ht). do 3 (split; [done|]).
  destruct (scenario_result node DEBUG sc m).1 as [b|e|]; [|done..].
  destruct Ho as (sts & Hc & Hb). pose proof Hc as (_ & _ & _ & _ & <- & _). done.
Qed.

(** C2: the boolean a scenario method returns is the conjunction of the
    statuses of the transactions it submitted, one status per step: it is
    true exactly when no status is 0, so if one of them is 0 the result is
    false.  A scenario method returns whenever
    the environment raises nothing but what [sign_send_transaction]
    catches. *)
Theorem scenario_result_is_conjunction sc m :
  match scenario_result node DEBUG sc m with
  | (Returned b, m') =>
      b = check_statuses (statuses (new_events m m'))
      ∧ length (statuses (new_events m m')) = length (steps sc)
      ∧ (b = true ↔ Forall (λ st, st ≠ 0%Z) (statuses (new_events m m')))
      ∧ (0%Z ∈ statuses (new_events m m') → b = false)
  | (Raised e, _) => ¬ (cooperative node ∧ well_formed (self m))
  | (Blocked, _) => False
  end.
Proof.
  destruct (scenario_run sc m) as (evs & _ & He & _ & Ho). simpl in *.
  destruct (scenario_result node DEBUG sc m) as [[b|e|] m']; simpl in *; [|done..].
  subst evs. destruct Ho as ((_ & _ & _ & _ & _ & Hl) & ->).
  split; [done|]. split; [done|]. split; [apply check_statuses_true|].
  apply check_statuses_zero.
Qed.

(** C4: in an environment that raises nothing but what
    [sign_send_transaction] catches, a scenario method returns, and in its
    run the contract functions of its steps are each built once, in source
    order; each built transaction is signed once; each signed transaction is
    sent once and each sent one awaited once; there is one status per step;
    all this whatever the statuses are, so a failed step is not retried and
    stops no later step: a zero status changes nothing but the value handed
    to the final reduction. *)
Theorem scenario_steps_once_each sc m :
  cooperative node → well_formed (self m) →
  ∃ b m', scenario_result node DEBUG sc m = (Returned b, m')
    ∧ b_fn <$> built (new_events m m') = steps sc
    ∧ (signed (new_events m m')).*1 = built_txs (new_events m m')
    ∧ length (signed (new_events m m')) = length (steps sc)
    ∧ sent (new_events m m') = signed_raws (new_events m m')
    ∧ waited (new_events m m') = sent_hashes (new_events m m')
    ∧ length (statuses (new_events m m')) = length (steps sc).
Proof.
  intros Hco Hwf. destruct (scenario_run sc m) as (evs & _ & He & _ & Ho). simpl in *.
  destruct (scenario_result node DEBUG sc m) as [[b|e|] m']; simpl in *; [|by destruct Ho|done].
  subst evs. destruct Ho as (((_ & _ & Hs & Hw) & Hf & Hg & Hb & _ & Hl) & ->).
  eexists _, _. split; [done|]. repeat split; try done.
  rewrite <- Hb, <- Hg. by rewrite length_fmap.
Qed.

(** C5: every transaction dict a scenario method hands to
    [buildTransaction] has gas price 0 and as sender one of the first three
    accounts of the object, and has a value field exactly when it is the
    [Deposit] transaction, whose value is the agreement price. *)
Theorem scenario_transactions_well_formed sc m :
  Forall (build_ok (accounts (self m)))
    (built (new_events m (scenario_result node DEBUG sc m).2)).
Proof.
  destruct (scenario_run sc m) as (evs & _ & He & (Hb & _) & _). simpl in *. by rewrite He.
Qed.

(** C8: a scenario method neither reads nor writes the nonces (nor the
    lock): run on an object with other nonces and another lock state it does
    the same and leaves them as it found them; it leaves the object as it
    was; and the sender and nonce of the transactions it builds are, one for
    one and in order, the accounts and answers of the transaction-count
    lookups [get_nonce] made on the node. *)
Theorem scenario_ignores_nonce_counter sc m :
  blind (scenario_result node DEBUG sc)
  ∧ nonces (self (scenario_result node DEBUG sc m).2) = nonces (self m)
  ∧ self (scenario_result node DEBUG sc m).2 = self m
  ∧ (from_nonce ∘ b_transaction) <$> built (new_events m (scenario_result node DEBUG sc m).2)
    = Some <$> lookups (new_events m (scenario_result node DEBUG sc m).2).
Proof.
  destruct (scenario_run sc m) as (evs & Hs & He & (_ & Hn & _) & _). simpl in *.
  split; [apply blind_scenario|]. rewrite Hs, He. done.
Qed.

Ltac wp_call :=
  lazymatch goal with
  | |- wp (sign_send_transaction _ _ ?tx ?pk) ?m _ =>
      eapply wp_mono; [apply sign_send_transaction_wp|];
      let sub := fresh "sub" in
      let Hsub := fresh "Hsub" in
      intros [?|?|] ? (sub & ? & ? & -> & Hsub & _ & _ & _ & ?);
      [ | | done];
      apply submission_only_log in Hsub as (_ & _ & _ & Hsub);
      wp_simpl
  | _ => wp_step
  end.

Lemma cloud_sla_creation_activation_call m :
  wp (cloud_sla_creation_activation node DEBUG) m (λ o m',
    match o with
    | Returned r =>
        ∃ contract_factory user,
          head (new_events m m')
            = Some (Event (get_contract (factory_address (self m)) COMPILED_FACTORY_PATH)
                          (inr contract_factory))
          ∧ accounts (self m) !! 1%nat = Some user
          ∧ called (new_events m m')
            = [(contract_factory, "getSmartContractAddress", [VStr user], inr r.1)]
    | _ => True
    end).
Proof.
  unfold cloud_sla_creation_activation, get_nonce.
  repeat wp_call; try exact I.
  all: unfold new_events; wp_simpl; rewrite <- ?app_assoc, drop_app_length.
  all: eexists _, _; (split; [reflexivity|]).
  all: match goal with
       | H : stored (accounts _) 1 = Some _ |- _ =>
           apply stored_Some_nonneg in H; [|lia]; (split; [exact H|])
       end.
  all: unfold called in *; rewrite !omap_app; simpl.
  all: repeat match goal with H : omap called_of _ = [] |- _ => rewrite H; clear H end.
  all: done.
Qed.

(** C9: the first component of what [cloud_sla_creation_activation] returns
    is the address the factory contract's [getSmartContractAddress] call was
    answered with (the one such call of the run, made for the second
    account), whatever the statuses of the two transactions were: the second
    component alone carries them.  The method returns whenever the
    environment raises nothing but what [sign_send_transaction] catches. *)
Theorem cloud_sla_returns_child_address m :
  match cloud_sla_creation_activation node DEBUG m with
  | (Returned (tx_sm_address, all_statuses), m') =>
      (∃ contract_factory user,
         head (new_events m m')
           = Some (Event (get_contract (factory_address (self m)) COMPILED_FACTORY_PATH)
                         (inr contract_factory))
         ∧ accounts (self m) !! 1%nat = Some user
         ∧ called (new_events m m')
           = [(contract_factory, "getSmartContractAddress", [VStr user], inr tx_sm_address)])
      ∧ all_statuses = check_statuses (statuses (new_events m m'))
  | (Raised e, _) => ¬ (cooperative node ∧ well_formed (self m))
  | (Blocked, _) => False
  end.
Proof.
  pose proof (cloud_sla_creation_activation_call m) as Hcall.
  pose proof (cloud_sla_creation_activation_ok m) as (_ & evs & Ht & _ & Ho).
  unfold wp in *.
  destruct (cloud_sla_creation_activation node DEBUG m) as [[[addr b]|e|] m'];
    simpl in *; [|done..].
  split; [done|]. rewrite (new_events_app _ _ _ Ht).
  destruct Ho as (sts & (_ & _ & _ & _ & <- & _) & ->). done.
Qed.


(** ** Further properties of the nonce manager *)

Lemma py_index_out_of_range {A} (l : list A) i :
  (i < - Z.of_nat (length l) ∨ Z.of_nat (length l) ≤ i)%Z → py_index l i = None.
Proof.
  intros H. unfold py_index. repeat case_bool_decide; (done || lia).
Qed.

Lemma py_index_negative {A} (l : list A) i :
  (- Z.of_nat (length l) ≤ i < 0)%Z →
  py_index l i = py_index l (i + Z.of_nat (length l)).
Proof.
  intros H. unfold py_index. repeat case_bool_decide; try lia. f_equal. lia.
Qed.

Lemma get_nonce_lock_blocked idx m :
  lock (self m) = true → get_nonce_lock idx m = (Blocked, m).
Proof. intros H. by rewrite get_nonce_lock_run, H. Qed.

Lemma update_nonces_blocked m :
  lock (self m) = true → update_nonces node m = (Blocked, m).
Proof.
  intros H. unfold update_nonces, mbind, M_bind, bind, lock_acquire. by rewrite H.
Qed.

(** X1: with the lock free and an index outside the list (below minus its
    length, or at least its length), [get_nonce_lock] raises [IndexError]
    after the delay, with the nonces untouched and the lock still held, so
    every later [get_nonce_lock] and [update_nonces] on the object blocks. *)
Theorem get_nonce_lock_index_error_keeps_lock idx m :
  lock (self m) = false →
  (idx < - Z.of_nat (length (nonces (self m))) ∨ Z.of_nat (length (nonces (self m))) ≤ idx)%Z →
  let m1 := Machine (set_lock true (self m)) (world m) (trace m) (stdout m) (clock m + 100)%N in
  get_nonce_lock idx m = (Raised index_error, m1)
  ∧ (∀ idx', get_nonce_lock idx' m1 = (Blocked, m1))
  ∧ update_nonces node m1 = (Blocked, m1).
Proof.
  intros Hl Hidx. simpl. split; [|split].
  - by rewrite get_nonce_lock_run, Hl, py_index_out_of_range.
  - intros idx'. by apply get_nonce_lock_blocked.
  - by apply update_nonces_blocked.
Qed.

(** X2: a negative index counts from the end, as Python's do:
    [get_nonce_lock idx] with [-len <= idx < 0] is [get_nonce_lock (idx + len)]
    for [len] nonces, and [get_nonce idx] is [get_nonce (idx + len)] for [len]
    accounts. *)
Theorem negative_index_counts_from_the_end idx m :
  (- Z.of_nat (length (nonces (self m))) ≤ idx < 0)%Z →
  (- Z.of_nat (length (accounts (self m))) ≤ idx < 0)%Z →
  get_nonce_lock idx m = get_nonce_lock (idx + Z.of_nat (length (nonces (self m)))) m
  ∧ get_nonce node idx m = get_nonce node (idx + Z.of_nat (length (accounts (self m)))) m.
Proof.
  intros Hn Ha. split.
  - rewrite !get_nonce_lock_run. by rewrite <- py_index_negative.
  - unfold get_nonce, mbind, M_bind, bind, gets, getitem. simpl.
    by rewrite <- py_index_negative.
Qed.

Lemma occurrences_cons i i0 l :
  occurrences i (i0 :: l) = ((if decide (i0 = i) then 1 else 0) + occurrences i l)%Z.
Proof.
  unfold occurrences. rewrite filter_cons. destruct (decide (i0 = i)); simpl; lia.
Qed.

Lemma get_nonce_lock_in_range idx m :
  lock (self m) = false → (0 ≤ idx < Z.of_nat (length (nonces (self m))))%Z →
  ∃ v, nonces (self m) !! Z.to_nat idx = Some v
    ∧ get_nonce_lock idx m =
        (Returned v,
         Machine (set_lock false (set_nonces (<[Z.to_nat idx := (v + 1)%Z]> (nonces (self m))) (self m)))
           (world m) (trace m) (stdout m) (clock m + 100)%N).
Proof.
  intros Hl Hi. rewrite get_nonce_lock_run, Hl, (py_index_nonneg _ _ Hi).
  destruct (lookup_lt_is_Some_2 (nonces (self m)) (Z.to_nat idx)) as [v Hv]; [lia|].
  exists v. by rewrite Hv.
Qed.

(** X3: on a free lock, calls of [get_nonce_lock] made one after the other
    for indices inside the list all return; the call at position [j], for
    index [i], returns the nonce stored for [i] at the start plus the number
    of earlier calls for [i]; at the end each nonce has grown by the number
    of calls for its index, the lock is free again, and every call has taken
    the tenth of a second. *)
Theorem get_nonce_lock_counts_calls (idxs : list Z) : ∀ m,
  lock (self m) = false →
  Forall (λ i, (0 ≤ i < Z.of_nat (length (nonces (self m))))%Z) idxs →
  ∃ vs m', run_all (get_nonce_lock <$> idxs) m = (vs, m')
    ∧ length vs = length idxs
    ∧ (∀ j i v, idxs !! j = Some i → nonces (self m) !! Z.to_nat i = Some v →
         vs !! j = Some (v + occurrences i (take j idxs))%Z)
    ∧ (∀ i v, (0 ≤ i)%Z → nonces (self m) !! Z.to_nat i = Some v →
         nonces (self m') !! Z.to_nat i = Some (v + occurrences i idxs)%Z)
    ∧ lock (self m') = false
    ∧ clock m' = (clock m + 100 * N.of_nat (length idxs))%N.
Proof.
  induction idxs as [|i0 idxs IH]; intros m Hl Hall.
  - exists [], m. repeat split; try done.
    + intros i v _ Hv. rewrite Hv. f_equal. unfold occurrences. simpl. lia.
    + simpl. lia.
  - apply Forall_cons in Hall as [Hi0 Hall].
    destruct (get_nonce_lock_in_range i0 m Hl Hi0) as (v0 & Hv0 & Hcall).
    set (m1 := Machine (set_lock false (set_nonces (<[Z.to_nat i0 := (v0 + 1)%Z]> (nonces (self m))) (self m)))
                 (world m) (trace m) (stdout m) (clock m + 100)%N) in *.
    assert (∀ i v, (0 ≤ i)%Z → nonces (self m) !! Z.to_nat i = Some v →
              nonces (self m1) !! Z.to_nat i
              = Some (v + (if decide (i0 = i) then 1 else 0))%Z) as Hstep.
    { intros i v Hi Hv. simpl. destruct (decide (i0 = i)) as [->|Hne].
      - rewrite list_lookup_insert_eq by lia. congruence.
      - rewrite list_lookup_insert_ne by lia. rewrite Hv. f_equal. lia. }
    destruct (IH m1) as (vs & m' & Hrun & Hlen & Hvs & Hns & Hl' & Hclk).
    { done. }
    { simpl. by rewrite length_insert. }
    exists (v0 :: vs), m'. rewrite fmap_cons. cbn [run_all]. rewrite Hcall, Hrun.
    split; [done|]. split; [simpl; by rewrite Hlen|].
    split; [|split; [|split]].
    + intros [|j] i v Hj Hv; simpl in *.
      * simplify_eq. f_equal. unfold occurrences. simpl. lia.
      * assert (0 ≤ i)%Z as Hi.
        { apply list_elem_of_lookup_2 in Hj. rewrite Forall_forall in Hall.
          apply Hall in Hj. lia. }
        rewrite (Hvs j i _ Hj (Hstep i v Hi Hv)), occurrences_cons. f_equal. lia.
    + intros i v Hi Hv. rewrite (Hns i _ Hi (Hstep i v Hi Hv)), occurrences_cons.
      f_equal. lia.
    + done.
    + rewrite Hclk. simpl. lia.
Qed.

Lemma update_nonces_failure_wp m :
  length (nonces (self m)) = 3%nat →
  wp (update_nonces node) m (λ o m',
    match o with
    | Raised e =>
        lock (self m') = true
        ∧ (length (lookups (new_events m m')) < 3)%nat
        ∧ nonces (self m')
          = (lookups (new_events m m')).*2
            ++ drop (length (lookups (new_events m m'))) (nonces (self m))
    | _ => True
    end).
Proof.
  destruct m as [[fa oa acc pks prov lk ns] w t out clk]. simpl.
  intros Hlen. destruct ns as [|n0 [|n1 [|n2 [|]]]]; try done.
  unfold update_nonces, range. cbn [seq fmap list_fmap for_in Z.of_nat].
  repeat wp_step; try exact I.
  all: try (vm_compute in Hset; discriminate).
  all: try (vm_compute in Hset0; discriminate).
  all: try (vm_compute in Hset1; discriminate).
  all: read_new_events.
  all: repeat match goal with
              | H : py_index _ _ = Some _ |- _ => vm_compute in H; injection H as <-
              end.
  all: simpl; repeat split; try done; lia.
Qed.

(** X4: when [update_nonces] raises (a lookup raised, or there are fewer
    than three accounts), the lock stays held and the nonces are left half
    updated: the entries before the failure hold the counts already
    answered, the others are as before.  Every later [get_nonce_lock] and
    [update_nonces] on the object then blocks. *)
Theorem update_nonces_failure_keeps_lock m :
  length (nonces (self m)) = 3%nat →
  match update_nonces node m with
  | (Raised e, m') =>
      lock (self m') = true
      ∧ (length (lookups (new_events m m')) < 3)%nat
      ∧ nonces (self m')
        = (lookups (new_events m m')).*2
          ++ drop (length (lookups (new_events m m'))) (nonces (self m))
      ∧ (∀ idx, get_nonce_lock idx m' = (Blocked, m'))
      ∧ update_nonces node m' = (Blocked, m')
  | _ => True
  end.
Proof.
  intros Hlen. pose proof (update_nonces_failure_wp m Hlen) as H. unfold wp in H.
  destruct (update_nonces node m) as [[[]|e|] m']; simpl in H; try done.
  destruct H as (Hl & Hk & Hns). repeat split; try done.
  - intros idx. by apply get_nonce_lock_blocked.
  - by apply update_nonces_blocked.
Qed.

(** X5: after a completed [update_nonces], [get_nonce_lock idx] for an
    account index 0, 1 or 2 returns the transaction count the node answered
    for that account during the update, and stores that count plus one. *)
Theorem update_nonces_then_get_nonce_lock idx m :
  (0 ≤ idx < 3)%Z →
  match update_nonces node m with
  | (Returned _, m1) =>
      ∃ a c, accounts (self m) !! Z.to_nat idx = Some a
        ∧ lookups (new_events m m1) !! Z.to_nat idx = Some (a, c)
        ∧ (get_nonce_lock idx m1).1 = Returned c
        ∧ nonces (self (get_nonce_lock idx m1).2) !! Z.to_nat idx = Some (c + 1)%Z
  | _ => True
  end.
Proof.
  intros Hidx. pose proof (update_nonces_wp m) as H. unfold wp in H.
  destruct (lock (self m)) eqn:Hl.
  { by rewrite update_nonces_blocked. }
  destruct (update_nonces node m) as [[[]|e|] m1]; simpl in H; try done.
  destruct H as (_ & _ & _ & a0 & a1 & a2 & c0 & c1 & c2 & H0 & H1 & H2 & Ht & Hlen & Hs).
  rewrite (new_events_app _ _ _ Ht). simpl.
  assert (lock (self m1) = false) as Hl1 by (by rewrite Hs).
  assert (length (nonces (self m1)) = length (nonces (self m))) as Hlen1.
  { rewrite Hs. simpl. by rewrite !length_insert. }
  destruct (get_nonce_lock_in_range idx m1 Hl1) as (v & Hv & Hcall); [lia|].
  rewrite Hcall.
  simpl. rewrite list_lookup_insert_eq by lia.
  rewrite Hs in Hv. simpl in Hv.
  assert (idx = 0 ∨ idx = 1 ∨ idx = 2)%Z as [-> | [-> | ->]] by lia; simpl in *.
  - exists a0, c0. rewrite list_lookup_insert_ne, list_lookup_insert_ne,
      list_lookup_insert_eq in Hv by lia. by simplify_eq.
  - exists a1, c1. rewrite list_lookup_insert_ne, list_lookup_insert_eq in Hv
      by (rewrite ?length_insert; lia). by simplify_eq.
  - exists a2, c2. rewrite list_lookup_insert_eq in Hv
      by (rewrite ?length_insert; lia). by simplify_eq.
Qed.

(** ** Further properties of the constructor *)

(** X6: [__init__] returns only with at least three configured accounts.
    When it raises, either the exception is the one a call was answered
    with, or no call raised and it is the [IndexError] of a settings file
    with fewer than three accounts, met after a transaction count was looked
    up for each account there is. *)
Theorem init_needs_three_accounts blockchain m :
  match __init__ node blockchain m with
  | (Returned _, m') => (3 ≤ length (accounts (self m')))%nat
  | (Raised e, m') =>
      raised (new_events m m') = [e]
      ∨ (raised (new_events m m') = [] ∧ e = index_error
         ∧ ∃ acc pks,
             Event (get_settings blockchain) (inr (acc, pks)) ∈ new_events m m'
             ∧ (length acc < 3)%nat
             ∧ length (sync_lookups (new_events m m')) = length acc)
  | (Blocked, _) => False
  end.
Proof.
  pose proof (init_failure_wp blockchain m) as H. unfold wp in H.
  by destruct (__init__ node blockchain m) as [[[]|e|] m'].
Qed.

(** X7: on an object [__init__] has built, [get_nonce_lock idx] for an
    account index 0, 1 or 2 returns the transaction count looked up for that
    account during construction; the lock starts free, and with three
    private keys in the settings the object is ready for every method. *)
Theorem init_then_get_nonce_lock blockchain idx m :
  (0 ≤ idx < 3)%Z →
  match __init__ node blockchain m with
  | (Returned _, m1) =>
      (∃ a c, accounts (self m1) !! Z.to_nat idx = Some a
         ∧ sync_lookups (new_events m m1) !! Z.to_nat idx = Some (a, c)
         ∧ (get_nonce_lock idx m1).1 = Returned c)
      ∧ lock (self m1) = false
      ∧ ((3 ≤ length (private_keys (self m1)))%nat → well_formed (self m1))
  | _ => True
  end.
Proof.
  intros Hidx. pose proof (init_wp blockchain m) as H. unfold wp in H.
  destruct (__init__ node blockchain m) as [[[]|e|] m1]; simpl in H; try done.
  destruct H as (fa & oa & acc & pks & a0 & a1 & a2 & c0 & c1 & c2 & H0 & H1 & H2 & Ht & Hs).
  rewrite (new_events_app _ _ _ Ht). rewrite get_nonce_lock_run, Hs. simpl.
  split; [|split; [done|]].
  - assert (idx = 0 ∨ idx = 1 ∨ idx = 2)%Z as [-> | [-> | ->]] by lia; simpl; eauto.
  - intros Hpks. repeat split; try done. apply lookup_lt_Some in H2. simpl. lia.
Qed.

(** ** The debug flag *)

Lemma agree_ret {A} (a : A) : agree (World := World) (mret a) (mret a).
Proof. by intros m1 m2 H. Qed.

Lemma agree_bind {A B} (p q : M A) (k k' : A → M B) :
  agree p q → (∀ a, agree (k a) (k' a)) → agree (World := World) (p ≫= k) (q ≫= k').
Proof.
  intros Hp Hk m1 m2 H. unfold mbind, M_bind, bind.
  destruct (Hp m1 m2 H) as [Ho Hm].
  destruct (p m1) as [[a|e|] m1'], (q m2) as [[a'|e'|] m2']; simpl in *; simplify_eq; try done.
  by apply Hk.
Qed.

Lemma agree_gets {A} (f : ContractTest → A) : agree (World := World) (gets f) (gets f).
Proof. intros m1 m2 H. unfold gets. simpl. split; [|done]. destruct H as [-> _]. done. Qed.

Lemma agree_getitem {A} (l : list A) i : agree (World := World) (getitem l i) (getitem l i).
Proof.
  intros m1 m2 H. unfold getitem.
  destruct (py_index l i) as [n|]; [|done]. by destruct (l !! n).
Qed.

Lemma agree_ext {X} (c : call X) : agree (ext node c) (ext node c).
Proof.
  intros m1 m2 (Hs & Hw & Ht & Hc). unfold ext. rewrite Hw.
  destruct (node X c (world m2)) as [[e|x] w']; simpl; rewrite Hs, Ht, Hc; done.
Qed.

Lemma agree_prints (p q : @M World ()) : prints_only p → prints_only q → agree p q.
Proof.
  intros Hp Hq m1 m2 H. destruct (Hp m1) as [o1 ->], (Hq m2) as [o2 ->]. done.
Qed.

Lemma prints_only_when b (p : @M World ()) : prints_only p → prints_only (when b p).
Proof.
  intros Hp. destruct b; [done|]. intros m. exists [].
  destruct m. unfold when, ret. simpl. by rewrite app_nil_r.
Qed.

Lemma agree_try_except_else {A B} (body body' : M B) classes
    (handler handler' : exn → M A) (orelse orelse' : B → M A) :
  agree body body' → (∀ e, agree (handler e) (handler' e)) →
  (∀ b, agree (orelse b) (orelse' b)) →
  agree (World := World) (try_except_else body classes handler orelse)
    (try_except_else body' classes handler' orelse').
Proof.
  intros Hb Hh Ho m1 m2 H. unfold try_except_else.
  destruct (Hb m1 m2 H) as [Hout Hm].
  destruct (body m1) as [[b|e|] m1'], (body' m2) as [[b'|e'|] m2'];
    simpl in *; simplify_eq; try done.
  - by apply Ho.
  - destruct (isinstance e' classes); [by apply Hh|done].
Qed.

Ltac agree_rule :=
  lazymatch goal with
  | |- agree (mbind _ (when _ _)) (mbind _ (when _ _)) =>
      apply agree_bind;
        [ apply agree_prints; apply prints_only_when;
          repeat first [ apply prints_only_print | apply prints_only_seq ]
        | intros ? ]
  | |- agree (mbind _ _) (mbind _ _) => apply agree_bind; [|intros ?]
  | |- agree (mret _) (mret _) => apply agree_ret
  | |- agree (ret _) (ret _) => apply agree_ret
  | |- agree (gets _) (gets _) => apply agree_gets
  | |- agree (getitem _ _) (getitem _ _) => apply agree_getitem
  | |- agree (ext _ _) (ext _ _) => apply agree_ext
  | |- agree (try_except_else _ _ _ _) (try_except_else _ _ _ _) =>
      apply agree_try_except_else; [|intros ?|intros ?]
  end.

Lemma agree_sign_send_transaction d d' tx pk :
  agree (sign_send_transaction node d tx pk) (sign_send_transaction node d' tx pk).
Proof. unfold sign_send_transaction. repeat agree_rule. Qed.

Lemma agree_sequence_upload d d' a f h :
  agree (sequence_upload node d a f h) (sequence_upload node d' a f h).
Proof.
  unfold sequence_upload, get_nonce.
  repeat first [ agree_rule | apply agree_sign_send_transaction ].
Qed.

Lemma agree_sequence_read d d' a f u :
  agree (sequence_read node d a f u) (sequence_read node d' a f u).
Proof.
  unfold sequence_read, get_nonce.
  repeat first [ agree_rule | apply agree_sign_send_transaction ].
Qed.

Lemma agree_sequence_file d d' a f u h :
  agree (sequence_file node d a f u h) (sequence_file node d' a f u h).
Proof.
  unfold sequence_file, get_nonce.
  repeat first [ agree_rule | apply agree_sign_send_transaction ].
Qed.

Lemma agree_scenario d d' sc : agree (scenario_result node d sc) (scenario_result node d' sc).
Proof.
  destruct sc; simpl;
    unfold cloud_sla_creation_activation, upload, read, delete, file_check_undeleted_file,
      another_file_upload, read_deny_lost_file_check, another_file_upload_read,
      corrupted_file_check, get_nonce;
    repeat first [ agree_rule | apply agree_sign_send_transaction
                 | apply agree_sequence_upload | apply agree_sequence_read
                 | apply agree_sequence_file ].
Qed.

Lemma mute_ret {A} (a : A) : mute (World := World) (mret a).
Proof. done. Qed.

Lemma mute_bind {A B} (p : M A) (k : A → M B) :
  mute p → (∀ a, mute (k a)) → mute (World := World) (p ≫= k).
Proof.
  intros Hp Hk m. unfold mbind, M_bind, bind. specialize (Hp m).
  destruct (p m) as [[a|e|] m']; simpl in *; try done. by rewrite Hk.
Qed.

Lemma mute_gets {A} (f : ContractTest → A) : mute (World := World) (gets f).
Proof. done. Qed.

Lemma mute_getitem {A} (l : list A) i : mute (World := World) (getitem l i).
Proof.
  intros m. unfold getitem. destruct (py_index l i) as [n|]; [|done]. by destruct (l !! n).
Qed.

Lemma mute_ext {X} (c : call X) : mute (ext node c).
Proof. intros m. unfold ext. by destruct (node X c (world m)) as [[e|x] w']. Qed.

Lemma mute_when_off b (p : @M World ()) : mute (when (b && false) p).
Proof. by rewrite andb_false_r. Qed.

Lemma mute_when_false (p : @M World ()) : mute (when false p).
Proof. done. Qed.

Lemma mute_try_except_else {A B} (body : M B) classes (handler : exn → M A) (orelse : B → M A) :
  mute body → (∀ e, mute (handler e)) → (∀ b, mute (orelse b)) →
  mute (World := World) (try_except_else body classes handler orelse).
Proof.
  intros Hb Hh Ho m. unfold try_except_else. specialize (Hb m).
  destruct (body m) as [[b|e|] m']; simpl in *; try done.
  - by rewrite Ho.
  - destruct (isinstance e classes); [by rewrite Hh|done].
Qed.

Ltac mute_rule :=
  lazymatch goal with
  | |- mute (mbind _ _) => apply mute_bind; [|intros ?]
  | |- mute (mret _) => apply mute_ret
  | |- mute (ret _) => apply mute_ret
  | |- mute (gets _) => apply mute_gets
  | |- mute (getitem _ _) => apply mute_getitem
  | |- mute (ext _ _) => apply mute_ext
  | |- mute (when false _) => apply mute_when_false
  | |- mute (when (_ && false) _) => apply mute_when_off
  | |- mute (try_except_else _ _ _ _) => apply mute_try_except_else; [|intros ?|intros ?]
  end.

Lemma mute_sign_send_transaction tx pk : mute (sign_send_transaction node false tx pk).
Proof. unfold sign_send_transaction. repeat mute_rule. Qed.

Lemma mute_scenario sc : mute (scenario_result node false sc).
Proof.
  destruct sc; simpl;
    unfold cloud_sla_creation_activation, upload, read, delete, file_check_undeleted_file,
      another_file_upload, read_deny_lost_file_check, another_file_upload_read,
      corrupted_file_check, sequence_upload, sequence_read, sequence_file, get_nonce;
    repeat first [ mute_rule | apply mute_sign_send_transaction ].
Qed.

(** X8: the debug flag changes only what is printed.  With the flag on or
    off, every scenario method and [sign_send_transaction] have the same
    outcome and leave the same object, environment, log and clock; with the
    flag off they print nothing. *)
Theorem debug_changes_output_only sc tx pk m :
  let on := scenario_result node true sc m in
  let off := scenario_result node false sc m in
  let s_on := sign_send_transaction node true tx pk m in
  let s_off := sign_send_transaction node false tx pk m in
  (on.1 = off.1 ∧ same_but_stdout on.2 off.2 ∧ stdout off.2 = stdout m)
  ∧ (s_on.1 = s_off.1 ∧ same_but_stdout s_on.2 s_off.2 ∧ stdout s_off.2 = stdout m).
Proof.
  simpl. split.
  - destruct (agree_scenario true false sc m m) as [Ho Hm]; [done|].
    split; [done|]. split; [done|]. apply mute_scenario.
  - destruct (agree_sign_send_transaction true false tx pk m m) as [Ho Hm]; [done|].
    split; [done|]. split; [done|]. apply mute_sign_send_transaction.
Qed.

(** ** Exceptions in scenario methods *)

Lemma propagated_app evs1 evs2 en :
  propagated evs1 Done → propagated evs2 en → propagated (evs1 ++ evs2) en.
Proof.
  unfold propagated, fatals. intros H1 H2. destruct en as [|e|]; [| |done].
  - by rewrite omap_app, H1, H2.
  - destruct H2 as [(evs0 & ev & -> & H0 & Hev)|[H2 ->]].
    + left. exists (evs1 ++ evs0), ev. rewrite app_assoc, omap_app, H1, H0. done.
    + right. by rewrite omap_app, H1, H2.
Qed.

Lemma propagates_ret {A} (a : A) : propagates (World := World) (mret a).
Proof. intros m. exists []. by rewrite app_nil_r. Qed.

Lemma propagates_bind {A B} (p : M A) (k : A → M B) :
  propagates p → (∀ a, propagates (k a)) → propagates (World := World) (p ≫= k).
Proof.
  intros Hp Hk m. unfold mbind, M_bind, bind.
  destruct (Hp m) as (evs1 & Ht1 & H1).
  destruct (p m) as [[a|e|] m1]; simpl in *; [|by exists evs1..].
  destruct (Hk a m1) as (evs2 & Ht2 & H2). exists (evs1 ++ evs2).
  rewrite Ht2, Ht1, app_assoc. split; [done|]. by apply propagated_app.
Qed.

Lemma propagates_gets {A} (f : ContractTest → A) : propagates (World := World) (gets f).
Proof. intros m. exists []. by rewrite app_nil_r. Qed.

Lemma propagates_getitem {A} (l : list A) i : propagates (World := World) (getitem l i).
Proof.
  intros m. exists []. rewrite app_nil_r. unfold getitem.
  destruct (py_index l i) as [n|]; simpl; [|by split; [|right]].
  destruct (l !! n); simpl; [done|by split; [|right]].
Qed.

Lemma propagates_print str : propagates (World := World) (print str).
Proof. intros m. exists []. by rewrite app_nil_r. Qed.

Lemma propagates_when b (p : @M World ()) : propagates p → propagates (when b p).
Proof. destruct b; [done|]. intros _. apply propagates_ret. Qed.

Lemma propagates_ext {X} (c : call X) : is_submission c = false → propagates (ext node c).
Proof.
  intros Hc m. unfold ext. destruct (node X c (world m)) as [[e|x] w'] eqn:E; simpl.
  - exists [Event c (inl e)]. split; [done|]. left. exists [], (Event c (inl e)).
    simpl. by rewrite Hc.
  - by exists [Event c (inr x)].
Qed.

Lemma propagates_sign_send_transaction tx pk :
  propagates (sign_send_transaction node DEBUG tx pk).
Proof.
  intros m.
  assert (wp (sign_send_transaction node DEBUG tx pk) m (λ o m',
            ∃ evs, trace m' = trace m ++ evs ∧ propagated evs (ending_of o))) as H; [|done].
  unfold sign_send_transaction. apply wp_try_except_else.
  repeat wp_step.
  all: try (destruct (isinstance e [ValueError; TimeExhausted]) eqn:Hcaught; repeat wp_step).
  all: rewrite <- ?app_assoc; eexists; (split; [reflexivity|]).
  all: unfold propagated, fatals, ending_of; simpl; rewrite ?Hcaught; try done.
  all: left;
    first [ by (exists [], (Event (sign_transaction tx pk) (inl e)); simpl; rewrite Hcaught)
          | by (eexists [_], (Event (send_raw_transaction _) (inl e)); simpl; rewrite Hcaught)
          | by (eexists [_; _], (Event (wait_for_transaction_receipt _) (inl e));
                simpl; rewrite Hcaught) ].
Qed.

Ltac propagates_rule :=
  lazymatch goal with
  | |- propagates (mbind _ _) => apply propagates_bind; [|intros ?]
  | |- propagates (mret _) => apply propagates_ret
  | |- propagates (ret _) => apply propagates_ret
  | |- propagates (gets _) => apply propagates_gets
  | |- propagates (getitem _ _) => apply propagates_getitem
  | |- propagates (print _) => apply propagates_print
  | |- propagates (when _ _) => apply propagates_when
  | |- propagates (ext _ _) => apply propagates_ext; reflexivity
  | |- propagates (sign_send_transaction _ _ _ _) => apply propagates_sign_send_transaction
  end.

Lemma propagates_scenario sc : propagates (scenario_result node DEBUG sc).
Proof.
  destruct sc; simpl;
    unfold cloud_sla_creation_activation, upload, read, delete, file_check_undeleted_file,
      another_file_upload, read_deny_lost_file_check, another_file_upload_read,
      corrupted_file_check, sequence_upload, sequence_read, sequence_file, get_nonce;
    repeat propagates_rule.
Qed.

(** X9: in a scenario method, an exception answered to anything but the
    signing, sending and waiting inside [sign_send_transaction] is never
    turned into a status, not even a [ValueError] from [buildTransaction] or
    from the nonce lookup: it ends the run at that call and reaches the
    caller unchanged, as does an exception of another class from signing,
    sending or waiting.  A run that returns met no such exception; a run
    that raises without one raises the [IndexError] of a missing account or
    key. *)
Theorem scenario_exceptions_propagate sc m :
  let r := scenario_result node DEBUG sc m in
  match r.1 with
  | Returned _ => fatals (new_events m r.2) = []
  | Raised e =>
      (∃ evs0 ev, new_events m r.2 = evs0 ++ [ev] ∧ fatals evs0 = [] ∧ fatal_of ev = Some e)
      ∨ (fatals (new_events m r.2) = [] ∧ e = index_error)
  | Blocked => False
  end.
Proof.
  simpl. destruct (propagates_scenario sc m) as (evs & Ht & H).
  rewrite (new_events_app _ _ _ Ht).
  by destruct (scenario_result node DEBUG sc m).1.
Qed.

(** ** Who sends what to which contract *)

Ltac wp_call_signed :=
  lazymatch goal with
  | |- wp (sign_send_transaction _ _ ?tx ?pk) ?m _ =>
      eapply wp_mono; [apply sign_send_transaction_wp|];
      let sub := fresh "sub" in
      let Hsub := fresh "Hsub" in
      let Hsigned := fresh "Hsigned" in
      let Hbuilt := fresh "Hbuilt" in
      let Hcalled := fresh "Hcalled" in
      intros [?|?|] ? (sub & ? & ? & -> & Hsub & Hsigned & _ & _ & ?);
      [ | | done];
      apply submission_only_log in Hsub as (Hbuilt & _ & _ & Hcalled);
      wp_simpl
  | _ => wp_step
  end.

Lemma dict_from_plain a n :
  dict_of [("gasPrice", VInt 0); ("from", VStr a); ("nonce", VInt n)] !! "from" = Some (VStr a).
Proof. done. Qed.

Lemma dict_from_deposit a n v :
  dict_of [("gasPrice", VInt 0); ("from", VStr a); ("nonce", VInt n); ("value", v)] !! "from"
  = Some (VStr a).
Proof. done. Qed.

Ltac find_event :=
  simpl;
  repeat first [ apply list_elem_of_here | apply list_elem_of_further
               | (apply elem_of_app; right) ].

Ltac solve_plan :=
  read_new_events;
  repeat match goal with
         | H : stored _ ?k = Some _ |- _ =>
             apply stored_Some_nonneg in H; [|lia];
             let n := eval vm_compute in (Z.to_nat k) in
             change (Z.to_nat k) with n in H
         end;
  unfold follows_plan; split; [|split];
  [ unfold built in *; rewrite !omap_app; simpl;
    repeat match goal with H : omap built_of _ = [] |- _ => rewrite H end;
    simpl; rewrite ?dict_from_plain, ?dict_from_deposit;
    repeat match goal with H : accounts _ !! _ = Some _ |- _ => rewrite H end;
    reflexivity
  | unfold signed in *; rewrite !omap_app; simpl;
    repeat match goal with H : omap signed_of _ = [_] |- _ => rewrite H end;
    simpl;
    repeat match goal with H : private_keys _ !! _ = Some _ |- _ => rewrite H end;
    reflexivity
  | unfold built in *; rewrite !omap_app; simpl;
    repeat match goal with H : omap built_of _ = [] |- _ => rewrite H end;
    simpl;
    repeat (apply Forall_cons; split;
      [ eexists _, _; split; [find_event|];
        unfold target_ok; simpl; (split; [reflexivity|]);
        first [ reflexivity
              | eexists _, _; unfold called in *; rewrite !omap_app; simpl;
                repeat match goal with H : omap called_of _ = [] |- _ => rewrite H end;
                apply list_elem_of_here ] | ]);
    try apply Forall_nil_2 ].

Lemma scenario_plan_wp sc m :
  wp (scenario_result node DEBUG sc) m (λ o m',
    match o with
    | Returned _ => follows_plan (self m) sc (new_events m m')
    | _ => True
    end).
Proof.
  destruct sc; simpl;
    unfold cloud_sla_creation_activation, upload, read, delete, file_check_undeleted_file,
      another_file_upload, read_deny_lost_file_check, another_file_upload_read,
      corrupted_file_check, sequence_upload, sequence_read, sequence_file, get_nonce.
  all: repeat wp_call_signed; try exact I.
  all: solve_plan.
Qed.

(** X10: in a run of a scenario method that returns, the senders of the
    built transactions are, in order, the accounts the source names for the
    steps ([signers]: account 1 for the requests, [FileCheck] and [Deposit],
    account 0 for [createChild], the acknowledgements, [Delete] and
    [ReadRequestDeny], account 2 for [DigestStore]), and each transaction is
    signed with the private key at the index of its sender. *)
Theorem scenario_senders_and_keys sc m :
  match scenario_result node DEBUG sc m with
  | (Returned _, m') =>
      (λ b, b_transaction b !! "from") <$> built (new_events m m')
        = (λ i, VStr <$> accounts (self m) !! i) <$> signers sc
      ∧ Some <$> (signed (new_events m m')).*2
        = (λ i, private_keys (self m) !! i) <$> signers sc
  | _ => True
  end.
Proof.
  pose proof (scenario_plan_wp sc m) as H. unfold wp in H.
  destruct (scenario_result node DEBUG sc m) as [[b|e|] m']; simpl in H; try done.
  by destruct H as (H1 & H2 & _).
Qed.

(** X11: in a run of a scenario method that returns, every transaction is
    built on a contract object [get_contract] returned in that run:
    [createChild] on the one for the factory address, [DigestStore] on the
    one for the oracle address, [Deposit] on the agreement at the address
    the [getSmartContractAddress] call was answered with, and every other
    function on the agreement at the address the method was called with. *)
Theorem scenario_contracts sc m :
  match scenario_result node DEBUG sc m with
  | (Returned _, m') =>
      Forall (λ b, ∃ addr path,
                Event (get_contract addr path) (inr (b_contract b)) ∈ new_events m m'
                ∧ target_ok (self m) sc (new_events m m') (b_fn b) addr path)
        (built (new_events m m'))
  | _ => True
  end.
Proof.
  pose proof (scenario_plan_wp sc m) as H. unfold wp in H.
  destruct (scenario_result node DEBUG sc m) as [[b|e|] m']; simpl in H; try done.
  by destruct H as (_ & _ & H).
Qed.

(** ** What [sign_send_transaction] prints and touches *)

Lemma sign_send_transaction_output_wp tx pk m :
  wp (sign_send_transaction node DEBUG tx pk) m (λ o m',
    self m' = self m ∧ clock m' = clock m
    ∧ (length (new_events m m') ≤ 3)%nat
    ∧ stdout m' = stdout m ++ (if DEBUG then caught_lines (new_events m m') else [])).
Proof.
  unfold sign_send_transaction. apply wp_try_except_else.
  repeat wp_step.
  all: try (destruct (isinstance e [ValueError; TimeExhausted]) eqn:Hcaught; repeat wp_step).
  all: read_new_events; unfold caught_lines, caught_line; simpl;
    rewrite ?filter_cons, ?filter_nil.
  all: repeat case_decide; try congruence.
  all: simpl; rewrite ?app_nil_r; repeat split; try done; try lia.
  all: destruct DEBUG; simpl; by rewrite ?app_nil_r.
Qed.


(** ** What a scenario method prints *)

Lemma sign_send_transaction_lines_wp tx pk m :
  wp (sign_send_transaction node DEBUG tx pk) m (λ o m',
    ∃ sub w',
      m' = Machine (self m) w' (trace m ++ sub)
             (stdout m ++ if DEBUG then caught_lines sub else []) (clock m)
      ∧ called sub = []
      ∧ match o with
        | Returned _ => True
        | Raised _ => True
        | Blocked => False
        end).
Proof.
  pose proof (sign_send_transaction_wp tx pk m) as H1.
  pose proof (sign_send_transaction_output_wp tx pk m) as H2.
  unfold wp in *. destruct (sign_send_transaction node DEBUG tx pk m) as [o m']. simpl in *.
  destruct H1 as (sub & w' & out & -> & Hsub & _ & _ & _ & Ho).
  destruct H2 as (_ & _ & _ & Hout). simpl in Hout.
  unfold new_events in Hout. simpl in Hout. rewrite drop_app_length in Hout.
  apply app_inv_head in Hout. subst out.
  exists sub, w'. split; [done|]. apply submission_only_log in Hsub as (_ & _ & _ & Hc).
  split; [done|]. by destruct o.
Qed.

Lemma caught_lines_app evs1 evs2 :
  caught_lines (evs1 ++ evs2) = caught_lines evs1 ++ caught_lines evs2.
Proof. unfold caught_lines, raised. by rewrite omap_app, filter_app, fmap_app. Qed.

Ltac wp_call_lines :=
  lazymatch goal with
  | |- wp (sign_send_transaction _ _ ?tx ?pk) ?m _ =>
      eapply wp_mono; [apply sign_send_transaction_lines_wp|];
      let sub := fresh "sub" in
      let Hcalled := fresh "Hcalled" in
      intros [?|?|] ? (sub & ? & -> & Hcalled & ?);
      [ | | done];
      wp_simpl
  | |- wp (when ?b _) _ _ =>
      apply wp_when; let E := fresh "Hwhen" in destruct b eqn:E; wp_simpl
  | _ => wp_step
  end.

Lemma scenario_output_wp sc m :
  wp (scenario_result node DEBUG sc) m (λ o m',
    match o with
    | Returned b =>
        stdout m' = stdout m
          ++ (if DEBUG then caught_lines (new_events m m') else [])
          ++ (if b && DEBUG then success_lines sc (new_events m m') else [])
    | _ => True
    end).
Proof.
  destruct sc; simpl;
    unfold cloud_sla_creation_activation, upload, read, delete, file_check_undeleted_file,
      another_file_upload, read_deny_lost_file_check, another_file_upload_read,
      corrupted_file_check, sequence_upload, sequence_read, sequence_file, get_nonce.
  all: repeat wp_call_lines; try exact I.
  all: repeat match goal with H : (_ && _) = _ |- _ => rewrite H end.
  all: read_new_events.
  all: rewrite ?caught_lines_app.
  all: unfold called in *; rewrite ?omap_app.
  all: repeat match goal with H : omap called_of _ = [] |- _ => rewrite H; clear H end.
  all: simpl.
  all: destruct DEBUG; rewrite ?andb_false_r in *; try discriminate.
  all: simpl; rewrite ?app_nil_r, <- ?app_assoc; try reflexivity.
  all: match goal with |- context [if ?b then [] else []] => destruct b end.
  all: by rewrite ?app_nil_r.
Qed.

(** X13: a scenario method that returns has printed, when the debug flag is
    on, one line for each instance of [ValueError] or [TimeExhausted] caught
    in its submissions, in order, each with the class [type(e)] prints, and
    after them its success line exactly when the result it returns is true
    (the value [check_statuses] gave for its statuses); the [sequence_]
    methods have no success line.  With the flag off it has printed
    nothing. *)
Theorem scenario_output sc m :
  match scenario_result node DEBUG sc m with
  | (Returned b, m') =>
      stdout m' = stdout m
        ++ (if DEBUG then caught_lines (new_events m m') else [])
        ++ (if b && DEBUG then success_lines sc (new_events m m') else [])
  | _ => True
  end.
Proof.
  pose proof (scenario_output_wp sc m) as H. unfold wp in H.
  by destruct (scenario_result node DEBUG sc m) as [[b|e|] m'].
Qed.
End Verification.

(** ** Concrete runs *)

Lemma sim_node_cooperative (f : faults) :
  sign_fault f = None →
  (∀ e, send_fault f = Some e → isinstance e [ValueError; TimeExhausted] = true) →
  (∀ e, wait_fault f = Some e → isinstance e [ValueError; TimeExhausted] = true) →
  cooperative (sim_node f).
Proof.
  intros Hsign Hsend Hwait X c w. destruct c; simpl; try done.
  - by rewrite Hsign.
  - destruct (send_fault f) as [e|] eqn:He; simpl; [auto|done].
  - destruct (wait_fault f) as [e|] eqn:He; simpl; [auto|done].
Qed.

Lemma sample_object_well_formed : well_formed sample_object.
Proof. repeat split; simpl; lia. Qed.

(** With a signer that raises [TypeError], neither a [ValueError] nor a
    [TimeExhausted] is raised, and yet [sign_send_transaction] returns no
    status: the exception reaches the caller. *)
Lemma sign_send_transaction_type_error_escapes :
  let r := sign_send_transaction (sim_node type_error) false sample_tx "key1" sample_machine in
  Forall (λ e, isinstance e [ValueError; TimeExhausted] = false)
    (raised (new_events sample_machine r.2))
  ∧ r.1 = Raised (Exn (OtherException "TypeError") "Transaction must include these fields")
  ∧ ¬ ∃ st, r.1 = Returned st.
Proof.
  vm_compute. split; [by repeat constructor|]. split; [done|]. by intros [st ?].
Qed.

(** Two callers for account 0 started together on one event loop.  With the
    delay the loop is stuck at the second caller's [acquire]: neither caller
    returns, the lock is held and the nonces are as they were.  With the
    delay removed they return 7 and 8. *)
Lemma get_nonce_lock_delay_stops_second_caller :
  let r := run_until_complete [get_nonce_lock_coroutine 0; get_nonce_lock_coroutine 0]
             sample_machine in
  let r' := run_until_complete
              [get_nonce_lock_without_delay_coroutine 0; get_nonce_lock_without_delay_coroutine 0]
              sample_machine in
  r.1 = Blocked ∧ lock (self r.2) = true ∧ nonces (self r.2) = [7; 4; 0]%Z
  ∧ r'.1 = Returned [(0%nat, inr 7%Z); (1%nat, inr 8%Z)]
  ∧ lock (self r'.2) = false ∧ nonces (self r'.2) = [9; 4; 0]%Z
  ∧ r.1 ≠ r'.1 ∧ nonces (self r.2) ≠ nonces (self r'.2).
Proof. vm_compute. repeat split; congruence. Qed.

Lemma get_nonce_lock_fresh_nonce_witness :
  (0 ≤ 1 < 3)%Z
  ∧ (match get_nonce_lock 1 sample_machine with
     | (Returned v, m') =>
         nonces (self sample_machine) !! Z.to_nat 1 = Some v
         ∧ nonces (self m') !! Z.to_nat 1 = Some (v + 1)%Z
     | (Raised _, _) =>
         lock (self sample_machine) = false
         ∧ (length (nonces (self sample_machine)) ≤ Z.to_nat 1)%nat
     | (Blocked, _) => lock (self sample_machine) = true
     end
     ∧ (∀ idxs vs m', run_all (get_nonce_lock <$> idxs) sample_machine = (vs, m') →
          ∀ i j a b, (i < j)%nat → idxs !! i = Some 1%Z → idxs !! j = Some 1%Z →
            vs !! i = Some a → vs !! j = Some b → (a < b)%Z ∧ a ≠ b)).
Proof. split; [lia | apply (get_nonce_lock_fresh_nonce 1 sample_machine); lia]. Defined.

Lemma get_nonce_lock_delay_on_event_loop_witness :
  lock (self sample_machine) = false
  ∧ (2 ≤ length [0; 2; 0]%Z)%nat
  ∧ Forall (λ i, (0 ≤ i < Z.of_nat (length (nonces (self sample_machine))))%Z) [0; 2; 0]%Z
  ∧ run_until_complete (get_nonce_lock_coroutine <$> [0; 2; 0]%Z) sample_machine
    = (Blocked,
       Machine (set_lock true (self sample_machine)) (world sample_machine)
         (trace sample_machine) (stdout sample_machine) (clock sample_machine))
  ∧ ∃ vs m',
      run_until_complete (get_nonce_lock_without_delay_coroutine <$> [0; 2; 0]%Z) sample_machine
      = (Returned (zip (seq 0 (length [0; 2; 0]%Z)) (inr <$> vs)), m')
      ∧ length vs = length [0; 2; 0]%Z
      ∧ lock (self m') = false
      ∧ (run_all (await ∘ get_nonce_lock_coroutine <$> [0; 2; 0]%Z) sample_machine).1 = vs
      ∧ self (run_all (await ∘ get_nonce_lock_coroutine <$> [0; 2; 0]%Z) sample_machine).2
        = self m'.
Proof.
  assert (lock (self sample_machine) = false) as Hl by reflexivity.
  assert (2 ≤ length [0; 2; 0]%Z)%nat as Hlen by (simpl; lia).
  assert (Forall (λ i, (0 ≤ i < Z.of_nat (length (nonces (self sample_machine))))%Z)
            [0; 2; 0]%Z) as Hall by (repeat constructor; simpl; lia).
  destruct (get_nonce_lock_delay_on_event_loop 0 [0; 2; 0]%Z sample_machine) as (_ & _ & H).
  destruct (H Hl Hlen) as [Hb Hr].
  split; [exact Hl|]. split; [exact Hlen|]. split; [exact Hall|]. split; [exact Hb|].
  exact (Hr Hall).
Defined.

Lemma nonces_has_three_entries_witness :
  length (nonces (self sample_machine)) = 3%nat
  ∧ (wp (__init__ (sim_node healthy) "polygon") (Machine blank 5%Z [] [] 0%N) (λ o m',
       match o with
       | Returned _ =>
           length (nonces (self m')) = 3%nat
           ∧ (3 ≤ length (accounts (self m')))%nat
           ∧ sync_lookups (new_events (Machine blank 5%Z [] [] 0%N) m')
             = zip (take 3 (accounts (self m'))) (nonces (self m'))
           ∧ ∃ pks, Event (get_settings "polygon") (inr (accounts (self m'), pks))
                      ∈ new_events (Machine blank 5%Z [] [] 0%N) m'
       | Raised e =>
           raised (new_events (Machine blank 5%Z [] [] 0%N) m') = [e]
           ∨ ∃ acc pks, Event (get_settings "polygon") (inr (acc, pks))
                          ∈ new_events (Machine blank 5%Z [] [] 0%N) m'
                        ∧ (length acc < 3)%nat
       | Blocked => False
       end)
     ∧ length (nonces (self (get_nonce_lock 2 sample_machine).2)) = 3%nat
     ∧ length (nonces (self (update_nonces (sim_node healthy) sample_machine).2)) = 3%nat).
Proof.
  split; [reflexivity|].
  apply (nonces_has_three_entries (sim_node healthy) "polygon" 2
           (Machine blank 5%Z [] [] 0%N) sample_machine).
  reflexivity.
Defined.


(** Every send is rejected by the node, and still the three steps of
    [sequence_upload] are each built and signed once. *)
Lemma scenario_steps_once_each_witness :
  cooperative (sim_node rejecting) ∧ well_formed (self sample_machine)
  ∧ ∃ b m',
      scenario_result (sim_node rejecting) true (SequenceUpload "0xC41D" "test.pdf" "0x9f") sample_machine
        = (Returned b, m')
      ∧ b_fn <$> built (new_events sample_machine m')
        = steps (SequenceUpload "0xC41D" "test.pdf" "0x9f")
      ∧ (signed (new_events sample_machine m')).*1 = built_txs (new_events sample_machine m')
      ∧ length (signed (new_events sample_machine m'))
        = length (steps (SequenceUpload "0xC41D" "test.pdf" "0x9f"))
      ∧ sent (new_events sample_machine m') = signed_raws (new_events sample_machine m')
      ∧ waited (new_events sample_machine m') = sent_hashes (new_events sample_machine m')
      ∧ length (statuses (new_events sample_machine m'))
        = length (steps (SequenceUpload "0xC41D" "test.pdf" "0x9f")).
Proof.
  assert (cooperative (sim_node rejecting)) as Hco.
  { apply sim_node_cooperative; simpl; [reflexivity | intros e [= <-]; reflexivity | discriminate]. }
  split; [exact Hco|]. split; [exact sample_object_well_formed|].
  apply (scenario_steps_once_each (sim_node rejecting) true
           (SequenceUpload "0xC41D" "test.pdf" "0x9f") sample_machine Hco
           sample_object_well_formed).
Defined.

(** Runs on the simulated node. *)

Example get_nonce_lock_twice :
  (run_all [get_nonce_lock 1; get_nonce_lock 0; get_nonce_lock 1] sample_machine).1
  = [4; 7; 5]%Z.
Proof. reflexivity. Qed.

Example get_nonce_lock_alone_on_the_loop :
  run_until_complete [get_nonce_lock_coroutine 1] sample_machine
  = (Returned [(0%nat, inr 4%Z)],
     Machine (set_nonces [7; 5; 0]%Z sample_object) 0%Z [] [] 100%N).
Proof. reflexivity. Qed.

Example sign_send_transaction_rejected :
  (sign_send_transaction (sim_node rejecting) false sample_tx "key1" sample_machine).1
  = Returned 0%Z.
Proof. vm_compute. reflexivity. Qed.

Example sign_send_transaction_timed_out :
  (sign_send_transaction (sim_node timing_out) false sample_tx "key1" sample_machine).1
  = Returned 0%Z.
Proof. vm_compute. reflexivity. Qed.

Example sign_send_transaction_mined :
  (sign_send_transaction (sim_node healthy) false sample_tx "key1" sample_machine).1
  = Returned 1%Z.
Proof. vm_compute. reflexivity. Qed.

Example sequence_read_all_mined :
  let r := sequence_read (sim_node healthy) true "0xC41D" "test.pdf" "www.test.com" sample_machine in
  r.1 = Returned true ∧ statuses (trace r.2) = [1; 1]%Z
  ∧ b_fn <$> built (trace r.2) = ["ReadRequest"; "ReadRequestAck"].
Proof. vm_compute. done. Qed.

Example sequence_read_all_reverted :
  let r := sequence_read (sim_node reverting) true "0xC41D" "test.pdf" "www.test.com" sample_machine in
  r.1 = Returned false ∧ statuses (trace r.2) = [0; 0]%Z
  ∧ b_fn <$> built (trace r.2) = ["ReadRequest"; "ReadRequestAck"].
Proof. vm_compute. done. Qed.

(** Every send is rejected: each step fails, none is retried, none is skipped. *)
Example sequence_upload_all_rejected :
  let r := sequence_upload (sim_node rejecting) true "0xC41D" "test.pdf" "0x9f" sample_machine in
  r.1 = Returned false ∧ statuses (trace r.2) = [0; 0; 0]%Z
  ∧ b_fn <$> built (trace r.2) = ["UploadRequest"; "UploadRequestAck"; "UploadTransferAck"]
  ∧ length (signed (trace r.2)) = 3%nat ∧ length (sent (trace r.2)) = 3%nat
  ∧ waited (trace r.2) = [].
Proof. vm_compute. done. Qed.

(** Both transactions revert and the address is returned all the same. *)
Example cloud_sla_creation_activation_all_reverted :
  (cloud_sla_creation_activation (sim_node reverting) true sample_machine).1
  = Returned ("0xC41D", false).
Proof. vm_compute. reflexivity. Qed.

Example init_on_simulated_node :
  let r := __init__ (sim_node healthy) "polygon" (Machine blank 5%Z [] [] 0%N) in
  r.1 = Returned () ∧ nonces (self r.2) = [5; 5; 5]%Z
  ∧ accounts (self r.2) = ["0xA0"; "0xA1"; "0xA2"] ∧ lock (self r.2) = false.
Proof. vm_compute. done. Qed.

Example update_nonces_on_simulated_node :
  let r := update_nonces (sim_node healthy) sample_machine in
  r.1 = Returned () ∧ nonces (self r.2) = [0; 0; 0]%Z ∧ lock (self r.2) = false.
Proof. vm_compute. done. Qed.

(** ** Further concrete runs *)

Lemma get_nonce_lock_index_error_keeps_lock_witness :
  lock (self sample_machine) = false
  ∧ (3 < - Z.of_nat (length (nonces (self sample_machine)))
     ∨ Z.of_nat (length (nonces (self sample_machine))) ≤ 3)%Z
  ∧ (let m1 := Machine (set_lock true (self sample_machine)) (world sample_machine)
                 (trace sample_machine) (stdout sample_machine) (clock sample_machine + 100)%N in
     get_nonce_lock 3 sample_machine = (Raised index_error, m1)
     ∧ (∀ idx', get_nonce_lock idx' m1 = (Blocked, m1))
     ∧ update_nonces (sim_node healthy) m1 = (Blocked, m1)).
Proof.
  split; [reflexivity|]. split; [right; simpl; lia|].
  apply (get_nonce_lock_index_error_keeps_lock (sim_node healthy) 3 sample_machine);
    [reflexivity | right; simpl; lia].
Defined.

Lemma negative_index_counts_from_the_end_witness :
  (- Z.of_nat (length (nonces (self sample_machine))) ≤ -1 < 0)%Z
  ∧ (- Z.of_nat (length (accounts (self sample_machine))) ≤ -1 < 0)%Z
  ∧ get_nonce_lock (-1) sample_machine
    = get_nonce_lock (-1 + Z.of_nat (length (nonces (self sample_machine)))) sample_machine
  ∧ get_nonce (sim_node healthy) (-1) sample_machine
    = get_nonce (sim_node healthy) (-1 + Z.of_nat (length (accounts (self sample_machine))))
        sample_machine.
Proof.
  split; [simpl; lia|]. split; [simpl; lia|].
  apply (negative_index_counts_from_the_end (sim_node healthy) (-1) sample_machine);
    simpl; lia.
Defined.

Lemma get_nonce_lock_counts_calls_witness :
  lock (self sample_machine) = false
  ∧ Forall (λ i, (0 ≤ i < Z.of_nat (length (nonces (self sample_machine))))%Z) [1; 0; 1; 2; 1]%Z
  ∧ ∃ vs m', run_all (get_nonce_lock <$> [1; 0; 1; 2; 1]%Z) sample_machine = (vs, m')
      ∧ length vs = length [1; 0; 1; 2; 1]%Z
      ∧ (∀ j i v, [1; 0; 1; 2; 1]%Z !! j = Some i →
           nonces (self sample_machine) !! Z.to_nat i = Some v →
           vs !! j = Some (v + occurrences i (take j [1; 0; 1; 2; 1]%Z))%Z)
      ∧ (∀ i v, (0 ≤ i)%Z → nonces (self sample_machine) !! Z.to_nat i = Some v →
           nonces (self m') !! Z.to_nat i = Some (v + occurrences i [1; 0; 1; 2; 1]%Z)%Z)
      ∧ lock (self m') = false
      ∧ clock m' = (clock sample_machine + 100 * N.of_nat (length [1; 0; 1; 2; 1]%Z))%N.
Proof.
  assert (Forall (λ i, (0 ≤ i < Z.of_nat (length (nonces (self sample_machine))))%Z)
            [1; 0; 1; 2; 1]%Z) as Hall by (repeat constructor; simpl; lia).
  split; [reflexivity|]. split; [exact Hall|].
  exact (get_nonce_lock_counts_calls [1; 0; 1; 2; 1]%Z sample_machine eq_refl Hall).
Defined.

Lemma update_nonces_failure_keeps_lock_witness :
  length (nonces (self short_machine)) = 3%nat
  ∧ match update_nonces (sim_node healthy) short_machine with
    | (Raised e, m') =>
        lock (self m') = true
        ∧ (length (lookups (new_events short_machine m')) < 3)%nat
        ∧ nonces (self m')
          = (lookups (new_events short_machine m')).*2
            ++ drop (length (lookups (new_events short_machine m'))) (nonces (self short_machine))
        ∧ (∀ idx, get_nonce_lock idx m' = (Blocked, m'))
        ∧ update_nonces (sim_node healthy) m' = (Blocked, m')
    | _ => True
    end.
Proof.
  split; [reflexivity|].
  apply (update_nonces_failure_keeps_lock (sim_node healthy) short_machine). reflexivity.
Defined.

Lemma update_nonces_then_get_nonce_lock_witness :
  (0 ≤ 1 < 3)%Z
  ∧ match update_nonces (sim_node healthy) sample_machine with
    | (Returned _, m1) =>
        ∃ a c, accounts (self sample_machine) !! Z.to_nat 1 = Some a
          ∧ lookups (new_events sample_machine m1) !! Z.to_nat 1 = Some (a, c)
          ∧ (get_nonce_lock 1 m1).1 = Returned c
          ∧ nonces (self (get_nonce_lock 1 m1).2) !! Z.to_nat 1 = Some (c + 1)%Z
    | _ => True
    end.
Proof.
  split; [lia|].
  apply (update_nonces_then_get_nonce_lock (sim_node healthy) 1 sample_machine). lia.
Defined.

Lemma init_then_get_nonce_lock_witness :
  (0 ≤ 2 < 3)%Z
  ∧ match __init__ (sim_node healthy) "polygon" (Machine blank 5%Z [] [] 0%N) with
    | (Returned _, m1) =>
        (∃ a c, accounts (self m1) !! Z.to_nat 2 = Some a
           ∧ sync_lookups (new_events (Machine blank 5%Z [] [] 0%N) m1) !! Z.to_nat 2
             = Some (a, c)
           ∧ (get_nonce_lock 2 m1).1 = Returned c)
        ∧ lock (self m1) = false
        ∧ ((3 ≤ length (private_keys (self m1)))%nat → well_formed (self m1))
    | _ => True
    end.
Proof.
  split; [lia|].
  apply (init_then_get_nonce_lock (sim_node healthy) "polygon" 2 (Machine blank 5%Z [] [] 0%N)).
  lia.
Defined.

(** With two accounts, [update_nonces] overwrites two nonces, raises and
    keeps the lock. *)
Example update_nonces_with_two_accounts :
  let r := update_nonces (sim_node healthy) short_machine in
  r.1 = Raised index_error ∧ nonces (self r.2) = [9; 9; 0]%Z ∧ lock (self r.2) = true.
Proof. vm_compute. done. Qed.

(** A [ValueError] from [buildTransaction] is not a failed step: it ends
    [sequence_upload] after the first step. *)
Example sequence_upload_refused_estimate :
  let r := sequence_upload estimating_node true "0xC41D" "test.pdf" "0x9f" sample_machine in
  r.1 = Raised (Exn ValueError "execution reverted")
  ∧ statuses (trace r.2) = [1]%Z
  ∧ b_fn <$> built (trace r.2) = ["UploadRequest"; "UploadRequestAck"]
  ∧ fatals (trace r.2) = [Exn ValueError "execution reverted"].
Proof. vm_compute. done. Qed.

Example upload_output_when_mined :
  stdout (upload (sim_node healthy) true "0xC41D" sample_machine).2 = ["Upload: OK"].
Proof. vm_compute. reflexivity. Qed.

Example upload_output_when_rejected :
  stdout (upload (sim_node rejecting) true "0xC41D" sample_machine).2
  = ["<class 'ValueError'> [sign_send]: rejected by node";
     "<class 'ValueError'> [sign_send]: rejected by node";
     "<class 'ValueError'> [sign_send]: rejected by node"].
Proof. vm_compute. reflexivity. Qed.

(** A caught subclass of [ValueError] is printed under its own name. *)
Example sign_send_transaction_output_for_a_subclass :
  let r := sign_send_transaction (sim_node bad_key) true sample_tx "key1" sample_machine in
  r.1 = Returned 0%Z
  ∧ stdout r.2 = ["<class 'binascii.Error'> [sign_send]: Non-hexadecimal digit found"].
Proof. by vm_compute. Qed.

Example read_output_for_a_subclass :
  let r := read (sim_node bad_key) true "0xC41D" sample_machine in
  r.1 = Returned false
  ∧ stdout r.2 = ["<class 'binascii.Error'> [sign_send]: Non-hexadecimal digit found";
                  "<class 'binascii.Error'> [sign_send]: Non-hexadecimal digit found"].
Proof. by vm_compute. Qed.

Example isinstance_of_a_subclass :
  isinstance (Exn (Subclass "binascii.Error" ValueError) "") [ValueError; TimeExhausted] = true
  ∧ isinstance (Exn (Subclass "binascii.Error" ValueError) "") [IndexError; TimeExhausted] = false
  ∧ isinstance (Exn (OtherException "TypeError") "") [ValueError; TimeExhausted] = false.
Proof. by vm_compute. Qed.

Example sequence_file_plan_on_simulated_node :
  let r := sequence_file (sim_node healthy) false "0xC41D" "test.pdf" "www.test.com" "0x9f"
             sample_machine in
  (λ b, b_transaction b !! "from") <$> built (trace r.2)
    = [Some (VStr "0xA1"); Some (VStr "0xA2"); Some (VStr "0xA1")]
  ∧ (signed (trace r.2)).*2 = ["key1"; "key2"; "key1"]
  ∧ (λ b, address (b_contract b)) <$> built (trace r.2) = ["0xC41D"; "0x04AC"; "0xC41D"].
Proof. vm_compute. done. Qed.
